(** * Log search sessions and cluster readers of lonng/tidb

    Part I embeds [infoschema/inspection/log/search/search.go]: the
    filtering iterator [IterWithAccessTime], the token store [searcher]
    and its idle watcher [Gc].

    Part II models the cluster-config and cluster-log readers whose
    behaviour is pinned down by [executor/cluster_reader_test.go]. *)

From Stdlib Require Import ZArith List Bool Ascii String Strings.Byte Lia.
From Stdlib Require Import Sorting.Sorted Sorting.Permutation.
From stdpp Require Import gmap strings list.

Local Open Scope string_scope.
Local Open Scope list_scope.
Local Open Scope Z_scope.

(** ** Go values shared by both parts *)

(** [error] values: [errors.New msg] and the sentinel [io.EOF]. *)
Inductive error : Type :=
| errors_New (msg : string)
| io_EOF.

(** [time.Time] as an instant in nanoseconds; [time.Duration] likewise. *)
Definition Time : Type := Z.
Definition Duration : Type := Z.

Definition time_Second : Duration := 1000000000.

(** [t.Add d], [t.Before u] and [time.Since t] read at instant [now]. *)
Definition Time_Add (t : Time) (d : Duration) : Time := t + d.
Definition Time_Before (t u : Time) : bool := t <? u.
Definition time_Since (now t : Time) : Duration := now - t.

(** [time.Sleep d] started at [t0] returns no earlier than this instant;
    a zero or negative duration returns at once. *)
Definition time_Sleep (t0 : Time) (d : Duration) : Time := t0 + Z.max 0 d.

(** *** [bytes.Contains] *)

Fixpoint bytes_HasPrefix (s prefix : list byte) {struct prefix} : bool :=
  match prefix, s with
  | [], _ => true
  | _ :: _, [] => false
  | p :: prefix', c :: s' => Byte.eqb p c && bytes_HasPrefix s' prefix'
  end.

Fixpoint bytes_Contains (b subslice : list byte) : bool :=
  bytes_HasPrefix b subslice
  || match b with
     | [] => false
     | _ :: b' => bytes_Contains b' subslice
     end.

(** *** [uuid.UUID] and its [String] method *)

Definition UUID : Type := list byte.

Definition hexdigit (n : N) : ascii :=
  match String.get (N.to_nat n) "0123456789abcdef" with
  | Some c => c
  | None => "0"%char
  end.

Fixpoint hex_Encode (src : list byte) : string :=
  match src with
  | [] => EmptyString
  | b :: src' =>
      let n := Byte.to_N b in
      String (hexdigit (n / 16)%N) (String (hexdigit (n mod 16)%N) (hex_Encode src'))
  end.

Definition slice {A} (l : list A) (lo hi : nat) : list A :=
  firstn (hi - lo) (skipn lo l).

(** The canonical xxxxxxxx-xxxx-xxxx-xxxx-xxxxxxxxxxxx rendering. *)
Definition UUID_String (u : UUID) : string :=
  (hex_Encode (slice u 0 4) ++ "-" ++
   hex_Encode (slice u 4 6) ++ "-" ++
   hex_Encode (slice u 6 8) ++ "-" ++
   hex_Encode (slice u 8 10) ++ "-" ++
   hex_Encode (slice u 10 16))%string.

(** ** Log items *)

(** Modelled from the spec: the level type of package [item], whose
    source is absent, as the level enumeration of a [LogItem];
    [LevelInvalid] stands for what [ParseLogLevel] gives on an unknown
    name. *)
Inductive LevelType : Type :=
| LevelInvalid | LevelTRACE | LevelDEBUG | LevelINFO | LevelWARN
| LevelERROR | LevelCRITICAL.

#[global] Instance LevelType_eq_dec : EqDecision LevelType.
Proof. solve_decision. Defined.

(** Modelled from the spec: the interface [item.Item], whose source is
    absent, as the [LogItem] record {time, level, content} with its
    getters. *)
Record Item : Type := mkItem {
  GetTime : Time;
  GetLevel : LevelType;
  GetContent : list byte
}.

(** ** Part I: search.go *)

Module Search.

(** Modelled from the spec: the type [Sequence] of this package, whose
    source file is absent, as a finite forward-only stream.  [pending]
    holds what the successive [Next] calls still have to deliver (an item
    or a read error); once it is used up every call reports [io.EOF].
    [close_result] is what [Close] returns. *)
Record Sequence : Type := mkSequence {
  pending : list (Item + error);
  close_result : option error
}.

Definition Sequence_Next (q : Sequence) : (Item + error) * Sequence :=
  match pending q with
  | [] => (inr io_EOF, q)
  | r :: rest => (r, {| pending := rest; close_result := close_result q |})
  end.

Definition Sequence_Close (q : Sequence) : option error := close_result q.

(** [IterWithAccessTime]; the mutex [l] makes every method below one
    atomic step, which is how the methods are written here. *)
Record IterWithAccessTime : Type := mkIter {
  iter : option Sequence;
  access : Time;
  search : list byte;
  level : string
}.

Definition NewIter (i : Sequence) (search level : string) (now : Time)
  : IterWithAccessTime :=
  {| iter := Some i;
     access := now;
     search := list_byte_of_string search;
     level := level |}.

Section WithParser.

(** [parser.ParseLogLevel] and [NewSequence] are declared in files that
    are absent; the development is parametric in both. *)
Variable ParseLogLevel : list byte -> LevelType.
Variable NewSequence : string -> Time -> Time -> Sequence + error.

(** The two [continue] tests of the loop in [Next]. *)
Definition keeps (i : IterWithAccessTime) (it : Item) : bool :=
  bytes_Contains (GetContent it) (search i)
  && (String.eqb (level i) ""
      || bool_decide (GetLevel it = ParseLogLevel (list_byte_of_string (level i)))).

(** The [for] loop of [Next], by recursion on what the sequence still
    holds: it stops at the first error or the first item that is kept. *)
Fixpoint Next_loop (i : IterWithAccessTime) (close : option error)
    (p : list (Item + error)) : (Item + error) * Sequence :=
  match p with
  | [] => (inr io_EOF, mkSequence [] close)
  | inr err :: rest => (inr err, mkSequence rest close)
  | inl it :: rest =>
      if keeps i it then (inl it, mkSequence rest close)
      else Next_loop i close rest
  end.

Definition Next (i : IterWithAccessTime) (now : Time)
  : (Item + error) * IterWithAccessTime :=
  let i := {| iter := iter i; access := now; search := search i; level := level i |} in
  match iter i with
  | Some q =>
      let '(r, q') := Next_loop i (close_result q) (pending q) in
      (r, {| iter := Some q'; access := access i; search := search i; level := level i |})
  | None => (inr (errors_New "log file closed"), i)
  end.

Definition Close (i : IterWithAccessTime) : option error * IterWithAccessTime :=
  match iter i with
  | None => (None, i)
  | Some q =>
      (Sequence_Close q,
       {| iter := None; access := access i; search := search i; level := level i |})
  end.

Definition GetAccessTime (i : IterWithAccessTime) : Time := access i.

(** Successive [Next] calls made at the instants [nows], with what each
    returned. *)
Fixpoint Next_many (i : IterWithAccessTime) (nows : list Time)
  : list (Item + error) * IterWithAccessTime :=
  match nows with
  | [] => ([], i)
  | now :: later =>
      let '(r, i') := Next i now in
      let '(rs, i'') := Next_many i' later in
      (r :: rs, i'')
  end.

(** The items among some results, in order. *)
Fixpoint items_of (rs : list (Item + error)) : list Item :=
  match rs with
  | [] => []
  | inl it :: rs' => it :: items_of rs'
  | inr _ :: rs' => items_of rs'
  end.

(** *** The store

    Iterators are shared by pointer between the map, the watcher and the
    callers, so they live in a heap addressed by [ptr]. *)
Definition ptr : Type := positive.

Record searcher : Type := mkSearcher {
  m : gmap string ptr
}.

Definition NewSearcher : searcher := {| m := ∅ |}.

(** The program state: the searcher, the heap of iterators and the [Gc]
    goroutines started so far. *)
Record World : Type := mkWorld {
  srv : searcher;
  heap : gmap ptr IterWithAccessTime;
  goroutines : list (string * ptr)
}.

Definition SetIter (w : World) (token : string) (p : ptr) : World :=
  {| srv := {| m := <[token := p]> (m (srv w)) |};
     heap := heap w; goroutines := goroutines w |}.

Definition GetIter (w : World) (token : string) : option ptr :=
  m (srv w) !! token.

Definition DelIter (w : World) (token : string) : World :=
  {| srv := {| m := delete token (m (srv w)) |};
     heap := heap w; goroutines := goroutines w |}.

(** A method call through a pointer: run it on the heap cell. *)
Definition call {R} (f : IterWithAccessTime -> R * IterWithAccessTime)
    (w : World) (p : ptr) : option (R * World) :=
  match heap w !! p with
  | None => None
  | Some i =>
      let '(r, i') := f i in
      Some (r, {| srv := srv w; heap := <[p := i']> (heap w);
                  goroutines := goroutines w |})
  end.

Definition DURATION : Duration := 60 * time_Second.

(** One turn of the loop of [Gc], its check being made at instant [now];
    the boolean tells whether the loop [break]s. *)
Definition Gc_iteration (w : World) (token : string) (p : ptr) (now : Time)
  : World * bool :=
  match heap w !! p with
  | None => (w, false)
  | Some i =>
      if Time_Before (Time_Add (GetAccessTime i) DURATION) now then
        let w := DelIter w token in
        match call Close w p with
        | Some (_, w') => (w', true)
        | None => (w, true)
        end
      else (w, false)
  end.

(** The state a removing turn leaves: the token deleted, the iterator
    closed in place. *)
Definition Gc_removed (w : World) (token : string) (p : ptr)
    (i : IterWithAccessTime) : World :=
  {| srv := {| m := delete token (m (srv w)) |};
     heap := <[p := snd (Close i)]> (heap w);
     goroutines := goroutines w |}.

(** The earliest instant of the check of a turn that starts at [t0]. *)
Definition Gc_wakeup (i : IterWithAccessTime) (t0 : Time) : Time :=
  time_Sleep t0 (DURATION - time_Since t0 (GetAccessTime i)).

(** The loop run over the instants of its successive checks. *)
Fixpoint Gc_loop (w : World) (token : string) (p : ptr) (checks : list Time)
  : World * bool :=
  match checks with
  | [] => (w, false)
  | now :: rest =>
      let '(w', stop) := Gc_iteration w token p now in
      if stop then (w', true) else Gc_loop w' token p rest
  end.

(** [Gc]: register the iterator, then loop. *)
Definition Gc (w : World) (token : string) (p : ptr) (checks : list Time)
  : World * bool :=
  Gc_loop (SetIter w token p) token p checks.

(** [Search]; [u] is the value of [uuid.New()] and [now] the reading of
    [time.Now()] in [NewIter].  [go s.Gc(token, iter)] only records the
    goroutine: its [SetIter] runs when the goroutine is scheduled. *)
Definition Search (w : World) (u : UUID) (now : Time)
    (dir : string) (begin end_ : Time) (level text token : string)
  : (option ptr * string * option error) * World :=
  if String.eqb token "" then
    let token := UUID_String u in
    match NewSequence dir begin end_ with
    | inr err => ((None, token, Some err), w)
    | inl i =>
        let p := fresh (dom (heap w)) in
        let w' := {| srv := srv w;
                     heap := <[p := NewIter i text level now]> (heap w);
                     goroutines := goroutines w ++ [(token, p)] |} in
        ((Some p, token, None), w')
    end
  else
    match GetIter w token with
    | None => ((None, token, Some (errors_New "target not found")), w)
    | Some p => ((Some p, token, None), w)
    end.

End WithParser.

(** *** Sample states *)

Definition sample_item (t : Time) (lv : LevelType) (content : string) : Item :=
  mkItem t lv (list_byte_of_string content).

Definition sample_items : list (Item + error) :=
  [ inl (sample_item 1 LevelINFO "slow query foo");
    inl (sample_item 2 LevelERROR "region unavailable");
    inl (sample_item 3 LevelERROR "slow query bar") ].

(** An open iterator last used at instant 0 that filters on "slow". *)
Definition idle_iter : IterWithAccessTime :=
  {| iter := Some (mkSequence sample_items None);
     access := 0;
     search := list_byte_of_string "slow";
     level := "" |}.

(** The same iterator once closed. *)
Definition closed_iter : IterWithAccessTime :=
  {| iter := None;
     access := 0;
     search := list_byte_of_string "slow";
     level := "" |}.

(** A store with the single session "t". *)
Definition one_session : World :=
  {| srv := {| m := {[ "t" := 1%positive ]} |};
     heap := {[ 1%positive := idle_iter ]};
     goroutines := [] |}.

(** A log directory that cannot be opened. *)
Definition failing_NewSequence (dir : string) (begin end_ : Time)
  : Sequence + error :=
  inr (errors_New "open: no such file or directory").

(** An open iterator that filters on "slow" at level error. *)
Definition error_iter : IterWithAccessTime :=
  {| iter := Some (mkSequence sample_items None);
     access := 0;
     search := list_byte_of_string "slow";
     level := "ERROR" |}.

Definition sample_uuid : UUID :=
  [ Byte.x6b; Byte.xa7; Byte.xb8; Byte.x10; Byte.x9d; Byte.xad; Byte.x11; Byte.xd1;
    Byte.x80; Byte.xb4; Byte.x00; Byte.xc0; Byte.x4f; Byte.xd4; Byte.x30; Byte.xc8 ].

(** A lookup of session "t" made at instant 100. *)
Definition lookup_at_100 : (option ptr * string * option error) * World :=
  Search failing_NewSequence one_session [] 100 "" 0 0 "" "" "t".

End Search.

(** ** Part II: the cluster readers

    The sources of [executor/cluster_reader.go] and of the predicate
    extractor are absent; their test is present.  The definitions of this
    part follow the design document and are checked against the
    expectations of [TestTiDBClusterConfig] and [TestTiDBClusterLog]. *)

Module Cluster.

(** Modelled from the spec: a cluster member {role, address,
    statusAddress}; the role is kept as the name the [type] column shows
    ("tidb", "tikv", "pd"), as the test builds its servers. *)
Record Member : Type := mkMember {
  typ : string;
  address : string;
  statusAddress : string
}.

(** *** Predicates *)

(** Modelled from the spec: the atoms over the [type] and [address]
    columns. *)
Inductive Atom : Type :=
| TypeEq (v : string)
| TypeIn (vs : list string)
| AddressEq (v : string)
| AddressIn (vs : list string).

(** Modelled from the spec: the predicate tree; [PTrue] is the absent
    WHERE clause. *)
Inductive Predicate : Type :=
| PTrue
| PAtom (a : Atom)
| PAnd (p q : Predicate)
| POr (p q : Predicate)
| PNot (p : Predicate).

Inductive Column : Type := ColType | ColAddress.

(** Modelled from the spec: the set of admissible values of one column,
    either every value or a finite set. *)
Inductive Admissible : Type :=
| All
| Only (vs : list string).

Definition mem (v : string) (vs : list string) : bool :=
  existsb (String.eqb v) vs.

Definition admits (a : Admissible) (v : string) : bool :=
  match a with
  | All => true
  | Only vs => mem v vs
  end.

Definition adm_inter (a b : Admissible) : Admissible :=
  match a, b with
  | All, _ => b
  | _, All => a
  | Only xs, Only ys => Only (List.filter (fun x => mem x ys) xs)
  end.

Definition adm_union (a b : Admissible) : Admissible :=
  match a, b with
  | Only xs, Only ys => Only (xs ++ ys)
  | _, _ => All
  end.

Definition adm_atom (c : Column) (a : Atom) : Admissible :=
  match c, a with
  | ColType, TypeEq v => Only [v]
  | ColType, TypeIn vs => Only vs
  | ColAddress, AddressEq v => Only [v]
  | ColAddress, AddressIn vs => Only vs
  | _, _ => All
  end.

(** Modelled from the spec: the admissible values of a column, computed
    for each column on its own: AND intersects, OR unites, an atom on the
    other column (and a negation, which names no finite set) leaves every
    value admissible. *)
Fixpoint admissible (c : Column) (p : Predicate) : Admissible :=
  match p with
  | PTrue => All
  | PAtom a => adm_atom c a
  | PAnd p q => adm_inter (admissible c p) (admissible c q)
  | POr p q => adm_union (admissible c p) (admissible c q)
  | PNot _ => All
  end.

(** The value a row has in a column. *)
Definition column_value (c : Column) (type_ address_ : string) : string :=
  match c with
  | ColType => type_
  | ColAddress => address_
  end.

Definition provably_empty (a : Admissible) : bool :=
  match a with
  | Only [] => true
  | _ => false
  end.

(** Modelled from the spec: the member selection of the absent predicate
    extractor, [select(predicate, members)]; a member is selected iff its
    role and its address are admissible, and an empty admissible set
    selects nobody. *)
Definition select (p : Predicate) (members : list Member) : list Member :=
  let types := admissible ColType p in
  let addresses := admissible ColAddress p in
  if provably_empty types || provably_empty addresses then []
  else List.filter
         (fun mb => admits types (typ mb) && admits addresses (address mb))
         members.

(** *** Config payloads and their flattening *)

(** Modelled from the spec: a payload node is a scalar (in its textual
    form), a mapping in the order of its source, or something else (a
    list, say), which the flattener rejects. *)
Inductive Payload : Type :=
| Scalar (v : string)
| Mapping (kvs : Fields)
| Unsupported
with Fields : Type :=
| FNil
| FCons (k : string) (v : Payload) (rest : Fields).

Scheme Payload_mut := Induction for Payload Sort Prop
  with Fields_mut := Induction for Fields Sort Prop.

Definition MalformedPayload : error := errors_New "malformed payload".

Definition child_key (prefix : option string) (k : string) : string :=
  match prefix with
  | None => k
  | Some parent => (parent ++ "." ++ k)%string
  end.

Definition own_key (prefix : option string) : string :=
  match prefix with
  | None => ""
  | Some key => key
  end.

(** Modelled from the spec: the config flattener of the absent
    [executor/cluster_reader.go]; depth first, a nested mapping recurses
    with the key prefixed (parent.child), a scalar emits one
    (dottedKey, value) pair. *)
Fixpoint flatten (prefix : option string) (p : Payload)
  : list (string * string) + error :=
  match p with
  | Scalar v => inl [(own_key prefix, v)]
  | Mapping kvs => flatten_fields prefix kvs
  | Unsupported => inr MalformedPayload
  end
with flatten_fields (prefix : option string) (kvs : Fields)
  : list (string * string) + error :=
  match kvs with
  | FNil => inl []
  | FCons k v rest =>
      match flatten (Some (child_key prefix k)) v with
      | inr err => inr err
      | inl rows =>
          match flatten_fields prefix rest with
          | inr err => inr err
          | inl rows' => inl (rows ++ rows')%list
          end
      end
  end.

(** The leaf scalars of a payload with the path of mapping keys that
    leads to each, used to state what [flatten] computes. *)
Fixpoint leaves (path : list string) (p : Payload) : list (list string * string) :=
  match p with
  | Scalar v => [(path, v)]
  | Mapping kvs => leaves_fields path kvs
  | Unsupported => []
  end
with leaves_fields (path : list string) (kvs : Fields) : list (list string * string) :=
  match kvs with
  | FNil => []
  | FCons k v rest => (leaves (path ++ [k]) v ++ leaves_fields path rest)%list
  end.

Fixpoint count_scalars (p : Payload) : nat :=
  match p with
  | Scalar _ => 1
  | Mapping kvs => count_scalars_fields kvs
  | Unsupported => 0
  end
with count_scalars_fields (kvs : Fields) : nat :=
  match kvs with
  | FNil => 0
  | FCons _ v rest => (count_scalars v + count_scalars_fields rest)%nat
  end.

(** Only scalars and mappings all the way down. *)
Fixpoint well_formed (p : Payload) : bool :=
  match p with
  | Scalar _ => true
  | Mapping kvs => well_formed_fields kvs
  | Unsupported => false
  end
with well_formed_fields (kvs : Fields) : bool :=
  match kvs with
  | FNil => true
  | FCons _ v rest => well_formed v && well_formed_fields rest
  end.

(** [strings.Join]. *)
Fixpoint strings_Join (elems : list string) (sep : string) : string :=
  match elems with
  | [] => ""
  | [e] => e
  | e :: rest => (e ++ sep ++ strings_Join rest sep)%string
  end.

(** The prefix [flatten] carries below the mapping keys [path]. *)
Definition prefix_of (path : list string) : option string :=
  match path with
  | [] => None
  | _ :: _ => Some (strings_Join path ".")
  end.

(** A leaf as a (dottedKey, value) pair. *)
Definition dotted (leaf : list string * string) : string * string :=
  (strings_Join (fst leaf) ".", snd leaf).

(** *** The config query *)

(** A row of the cluster_config table: (TYPE, ADDRESS, KEY, VALUE). *)
Record ConfigRow : Type := mkConfigRow {
  row_type : string;
  row_address : string;
  row_key : string;
  row_value : string
}.

Definition eval_atom (a : Atom) (type_ address_ : string) : bool :=
  match a with
  | TypeEq v => String.eqb type_ v
  | TypeIn vs => mem type_ vs
  | AddressEq v => String.eqb address_ v
  | AddressIn vs => mem address_ vs
  end.

(** Modelled from the spec: the predicate evaluated on the [type] and
    [address] of a row, which is how it filters result rows. *)
Fixpoint eval (p : Predicate) (type_ address_ : string) : bool :=
  match p with
  | PTrue => true
  | PAtom a => eval_atom a type_ address_
  | PAnd p q => eval p type_ address_ && eval q type_ address_
  | POr p q => eval p type_ address_ || eval q type_ address_
  | PNot p => negb (eval p type_ address_)
  end.

(** The outcome of one fan-out: the rows, the warnings keyed by member
    address, and the members a request went to. *)
Record Outcome : Type := mkOutcome {
  rows : list ConfigRow;
  warnings : list (string * error);
  requests : list Member
}.

Definition member_rows (mb : Member) (kvs : list (string * string)) : list ConfigRow :=
  map (fun kv => mkConfigRow (typ mb) (address mb) (fst kv) (snd kv)) kvs.

(** Modelled from the spec: the fan-out [fetch] of the absent
    [executor/cluster_reader.go]; one call of the fetcher per selected
    member, in the order of the selection; a failed call or a malformed
    payload becomes a warning and the other members go on. *)
Fixpoint fetch (fetcher : Member -> Payload + error) (selected : list Member)
  : Outcome :=
  match selected with
  | [] => mkOutcome [] [] []
  | mb :: rest =>
      let o := fetch fetcher rest in
      let answer :=
        match fetcher mb with
        | inr err => inr err
        | inl payload => flatten None payload
        end in
      match answer with
      | inr err =>
          mkOutcome (rows o) ((address mb, err) :: warnings o) (mb :: requests o)
      | inl kvs =>
          mkOutcome (member_rows mb kvs ++ rows o)%list (warnings o) (mb :: requests o)
      end
  end.

(** Modelled from the spec: the cluster_config reader of the absent
    [executor/cluster_reader.go]: select, fan out, flatten, then keep the
    rows the predicate accepts. *)
Definition cluster_config (fetcher : Member -> Payload + error)
    (p : Predicate) (members : list Member) : Outcome :=
  let o := fetch fetcher (select p members) in
  mkOutcome
    (List.filter (fun r => eval p (row_type r) (row_address r)) (rows o))
    (warnings o) (requests o).

Definition requestCounter (o : Outcome) : nat := length (requests o).

(** *** The set-up of [TestTiDBClusterConfig] *)

(** The payload [mockConfig] serves. *)
Definition mockConfig : Payload :=
  Mapping
    (FCons "key1" (Scalar "value1")
    (FCons "key2"
       (Mapping (FCons "nest1" (Scalar "n-value1")
                (FCons "nest2" (Scalar "n-value2") FNil)))
     FNil)).

(** The [servers] of the test: every type on every test server. *)
Definition servers (testServers : list string) : list Member :=
  flat_map (fun t => map (fun a => mkMember t a a) testServers)
           ["tidb"; "tikv"; "pd"].

(** The predicate of [where type='pd' or address='<testServers[0]>']. *)
Definition pd_or_address (a0 : string) : Predicate :=
  POr (PAtom (TypeEq "pd")) (PAtom (AddressEq a0)).

Definition run (testServers : list string) (p : Predicate) : Outcome :=
  cluster_config (fun _ => inl mockConfig) p (servers testServers).

(** The cases of [TestTiDBClusterConfig]: the WHERE clause, [reqCount]
    and the expected rows. *)
Definition testServers : list string :=
  ["127.0.0.1:10080"; "127.0.0.1:10081"; "127.0.0.1:10082"].

Definition server (n : nat) : string := nth n testServers "".

(** The three rows the test expects of one member. *)
Definition config_rows (typ addr : string) : list ConfigRow :=
  [ mkConfigRow typ addr "key1" "value1";
    mkConfigRow typ addr "key2.nest1" "n-value1";
    mkConfigRow typ addr "key2.nest2" "n-value2" ].

(** [rows[typ][n]] of the test. *)
Definition block (typ : string) (n : nat) : list ConfigRow :=
  config_rows typ (server n).

Definition type_in_tidb_tikv : Predicate := PAtom (TypeIn ["tidb"; "tikv"]).

Definition cases : list (Predicate * nat * list ConfigRow) :=
  [ (PTrue, 9%nat,
     concat [block "tidb" 0; block "tidb" 1; block "tidb" 2;
             block "tikv" 0; block "tikv" 1; block "tikv" 2;
             block "pd" 0; block "pd" 1; block "pd" 2]);
    (POr (PAtom (TypeEq "pd")) (PAtom (TypeEq "tikv")), 6%nat,
     concat [block "tikv" 0; block "tikv" 1; block "tikv" 2;
             block "pd" 0; block "pd" 1; block "pd" 2]);
    (pd_or_address (server 0), 9%nat,
     concat [block "tidb" 0; block "tikv" 0;
             block "pd" 0; block "pd" 1; block "pd" 2]);
    (PAnd (PAtom (TypeEq "pd")) (PAtom (TypeEq "tikv")), 0%nat, []);
    (PAtom (TypeEq "tikv"), 3%nat,
     concat [block "tikv" 0; block "tikv" 1; block "tikv" 2]);
    (PAtom (TypeEq "pd"), 3%nat,
     concat [block "pd" 0; block "pd" 1; block "pd" 2]);
    (PAtom (TypeEq "tidb"), 3%nat,
     concat [block "tidb" 0; block "tidb" 1; block "tidb" 2]);
    (PAtom (TypeEq "tidb"), 3%nat,
     concat [block "tidb" 0; block "tidb" 1; block "tidb" 2]);
    (type_in_tidb_tikv, 6%nat,
     concat [block "tidb" 0; block "tidb" 1; block "tidb" 2;
             block "tikv" 0; block "tikv" 1; block "tikv" 2]);
    (PAtom (TypeIn ["tidb"; "tikv"; "pd"]), 9%nat,
     concat [block "tidb" 0; block "tidb" 1; block "tidb" 2;
             block "tikv" 0; block "tikv" 1; block "tikv" 2;
             block "pd" 0; block "pd" 1; block "pd" 2]);
    (PAtom (AddressEq (server 0)), 3%nat,
     concat [block "tidb" 0; block "tikv" 0; block "pd" 0]);
    (PAnd (PAtom (TypeEq "tidb")) (PAtom (AddressEq (server 0))), 1%nat,
     block "tidb" 0);
    (PAnd type_in_tidb_tikv (PAtom (AddressEq (server 0))), 2%nat,
     concat [block "tidb" 0; block "tikv" 0]);
    (PAnd type_in_tidb_tikv (PAtom (AddressIn [server 0; server 0])), 2%nat,
     concat [block "tidb" 0; block "tikv" 0]);
    (PAnd type_in_tidb_tikv (PAtom (AddressIn [server 0; server 1])), 4%nat,
     concat [block "tidb" 0; block "tidb" 1; block "tikv" 0; block "tikv" 1]);
    (PAnd (PAnd type_in_tidb_tikv (PAtom (TypeEq "pd")))
          (PAtom (AddressIn [server 0; server 1])), 0%nat, []);
    (PAnd (PAnd type_in_tidb_tikv (PAtom (AddressIn [server 0; server 1])))
          (PAtom (AddressEq (server 2))), 0%nat, []);
    (PAnd (PAnd type_in_tidb_tikv (PAtom (AddressIn [server 0; server 1])))
          (PAtom (AddressEq (server 0))), 2%nat,
     concat [block "tidb" 0; block "tikv" 0]) ].

(** What the loop over [cases] asserts of one case. *)
Definition case_passes (c : Predicate * nat * list ConfigRow) : Prop :=
  let o := run testServers (fst (fst c)) in
  rows o = snd c /\ warnings o = [] /\ requestCounter o = snd (fst c).

(** *** Cluster logs *)

(** Modelled from the spec: the stream whose head item is smallest by
    time gives the next item of a k-way merge; on a tie the earlier
    stream wins. *)
Fixpoint pop_min {A} (time : A -> Time) (ss : list (list A))
  : option (A * list (list A)) :=
  match ss with
  | [] => None
  | s :: rest =>
      match s, pop_min time rest with
      | [], None => None
      | [], Some (y, rest') => Some (y, [] :: rest')
      | x :: s', None => Some (x, s' :: rest)
      | x :: s', Some (y, rest') =>
          if time x <=? time y then Some (x, s' :: rest)
          else Some (y, s :: rest')
      end
  end.

Fixpoint kmerge {A} (time : A -> Time) (fuel : nat) (ss : list (list A)) : list A :=
  match fuel with
  | O => []
  | S fuel' =>
      match pop_min time ss with
      | None => []
      | Some (x, ss') => x :: kmerge time fuel' ss'
      end
  end.

(** Modelled from the spec: the k-way merge keyed on time of the absent
    log reader; the fuel is the number of items in the streams, one being
    yielded per step. *)
Definition merge {A} (time : A -> Time) (ss : list (list A)) : list A :=
  kmerge time (length (concat ss)) ss.

(** A log file is the list of its items in physical order. *)
Definition LogFile : Type := list Item.

(** Modelled from the spec: the Log File Sequence of a member, absent
    from the sources, as the look-ahead merge of its current file and its
    rotated predecessors. *)
Definition sequence (files : list LogFile) : list Item :=
  merge GetTime files.

(** A row of the cluster_log table. *)
Record LogRow : Type := mkLogRow {
  log_time : Time;
  log_type : string;
  log_address : string;
  log_level : LevelType;
  log_content : list byte
}.

Definition log_row (mb : Member) (it : Item) : LogRow :=
  mkLogRow (GetTime it) (typ mb) (address mb) (GetLevel it) (GetContent it).

(** Modelled from the spec: the Cross-Node Merge Iterator of the absent
    cluster_log reader; the filters [keep] are applied to the items as
    they are pulled from each member's sequence, and the members' streams
    are merged on time. *)
Definition cluster_log (keep : Item -> bool)
    (members : list (Member * list LogFile)) : list LogRow :=
  merge log_time
    (map (fun ml => map (log_row (fst ml)) (List.filter keep (sequence (snd ml))))
         members).





(** *** The set-up of [TestTiDBClusterLog] *)

Definition to_lower (c : ascii) : ascii :=
  let n := nat_of_ascii c in
  if (65 <=? n)%nat && (n <=? 90)%nat then ascii_of_nat (n + 32) else c.

Fixpoint strings_ToLower (s : string) : string :=
  match s with
  | EmptyString => EmptyString
  | String c s' => String (to_lower c) (strings_ToLower s')
  end.

(** Modelled from the spec: the absent [ParseLogLevel]; level names are
    matched without regard to case. *)
Definition ParseLogLevel (b : list byte) : LevelType :=
  let s := strings_ToLower (string_of_list_byte b) in
  if String.eqb s "trace" then LevelTRACE
  else if String.eqb s "debug" then LevelDEBUG
  else if String.eqb s "info" then LevelINFO
  else if String.eqb s "warn" then LevelWARN
  else if String.eqb s "error" then LevelERROR
  else if String.eqb s "critical" then LevelCRITICAL
  else LevelInvalid.

(** 2019/08/26 hh:mm:ss.011, counted from midnight. *)
Definition clock (h mi s : Z) : Time :=
  (((h * 60 + mi) * 60 + s) * 1000 + 11) * 1000000.

Definition logline (h mi s : Z) (lvl msg : string) : Item :=
  mkItem (clock h mi s) (ParseLogLevel (list_byte_of_string lvl))
         (list_byte_of_string msg).

Definition tidb_log : LogFile :=
  [ logline 6 19 13 "INFO" "[test log message tidb 1, foo]";
    logline 6 19 14 "DEBUG" "[test log message tidb 2, foo]";
    logline 6 19 15 "error" "[test log message tidb 3, foo]";
    logline 6 19 16 "trace" "[test log message tidb 4, foo]";
    logline 6 19 17 "CRITICAL" "[test log message tidb 5, foo]" ].

Definition tidb_log_1 : LogFile :=
  [ logline 6 25 13 "info" "[test log message tidb 10, bar]";
    logline 6 25 14 "debug" "[test log message tidb 11, bar]";
    logline 6 25 15 "ERROR" "[test log message tidb 12, bar]";
    logline 6 25 16 "TRACE" "[test log message tidb 13, bar]";
    logline 6 25 17 "critical" "[test log message tidb 14, bar]" ].

Definition tikv_log : LogFile :=
  [ logline 6 19 13 "INFO" "[test log message tikv 1, foo]";
    logline 6 20 14 "DEBUG" "[test log message tikv 2, foo]";
    logline 6 21 15 "error" "[test log message tikv 3, foo]";
    logline 6 22 16 "trace" "[test log message tikv 4, foo]";
    logline 6 23 17 "CRITICAL" "[test log message tikv 5, foo]" ].

Definition tikv_log_1 : LogFile :=
  [ logline 6 24 15 "info" "[test log message tikv 10, bar]";
    logline 6 25 16 "debug" "[test log message tikv 11, bar]";
    logline 6 26 17 "ERROR" "[test log message tikv 12, bar]";
    logline 6 27 18 "TRACE" "[test log message tikv 13, bar]";
    logline 6 28 19 "critical" "[test log message tikv 14, bar]" ].

Definition pd_log : LogFile :=
  [ logline 6 18 13 "INFO" "[test log message pd 1, foo]";
    logline 6 19 14 "DEBUG" "[test log message pd 2, foo]";
    logline 6 20 15 "error" "[test log message pd 3, foo]";
    logline 6 21 16 "trace" "[test log message pd 4, foo]";
    logline 6 22 17 "CRITICAL" "[test log message pd 5, foo]" ].

Definition pd_log_1 : LogFile :=
  [ logline 6 23 13 "info" "[test log message pd 10, bar]";
    logline 6 24 14 "debug" "[test log message pd 11, bar]";
    logline 6 25 15 "ERROR" "[test log message pd 12, bar]";
    logline 6 26 16 "TRACE" "[test log message pd 13, bar]";
    logline 6 27 17 "critical" "[test log message pd 14, bar]" ].

Definition log_address_of (typ : string) : string :=
  if String.eqb typ "pd" then "127.0.0.1:20160"
  else if String.eqb typ "tidb" then "127.0.0.1:20161"
  else "127.0.0.1:20162".

(** The three servers with their files; equal times come out in the
    order of this list, which is the order the expected rows show. *)
Definition log_servers : list (Member * list LogFile) :=
  [ (mkMember "pd" (log_address_of "pd") (log_address_of "pd"),
     [pd_log; pd_log_1]);
    (mkMember "tidb" (log_address_of "tidb") (log_address_of "tidb"),
     [tidb_log; tidb_log_1]);
    (mkMember "tikv" (log_address_of "tikv") (log_address_of "tikv"),
     [tikv_log; tikv_log_1]) ].

Definition expected_row (h mi s : Z) (typ lvl msg : string) : LogRow :=
  mkLogRow (clock h mi s) typ (log_address_of typ)
           (ParseLogLevel (list_byte_of_string lvl)) (list_byte_of_string msg).

Definition fullLogs : list LogRow :=
  [ expected_row 6 18 13 "pd" "INFO" "[test log message pd 1, foo]";
    expected_row 6 19 13 "tidb" "INFO" "[test log message tidb 1, foo]";
    expected_row 6 19 13 "tikv" "INFO" "[test log message tikv 1, foo]";
    expected_row 6 19 14 "pd" "DEBUG" "[test log message pd 2, foo]";
    expected_row 6 19 14 "tidb" "DEBUG" "[test log message tidb 2, foo]";
    expected_row 6 19 15 "tidb" "error" "[test log message tidb 3, foo]";
    expected_row 6 19 16 "tidb" "trace" "[test log message tidb 4, foo]";
    expected_row 6 19 17 "tidb" "CRITICAL" "[test log message tidb 5, foo]";
    expected_row 6 20 14 "tikv" "DEBUG" "[test log message tikv 2, foo]";
    expected_row 6 20 15 "pd" "error" "[test log message pd 3, foo]";
    expected_row 6 21 15 "tikv" "error" "[test log message tikv 3, foo]";
    expected_row 6 21 16 "pd" "trace" "[test log message pd 4, foo]";
    expected_row 6 22 16 "tikv" "trace" "[test log message tikv 4, foo]";
    expected_row 6 22 17 "pd" "CRITICAL" "[test log message pd 5, foo]";
    expected_row 6 23 13 "pd" "info" "[test log message pd 10, bar]";
    expected_row 6 23 17 "tikv" "CRITICAL" "[test log message tikv 5, foo]";
    expected_row 6 24 14 "pd" "debug" "[test log message pd 11, bar]";
    expected_row 6 24 15 "tikv" "info" "[test log message tikv 10, bar]";
    expected_row 6 25 13 "tidb" "info" "[test log message tidb 10, bar]";
    expected_row 6 25 14 "tidb" "debug" "[test log message tidb 11, bar]";
    expected_row 6 25 15 "pd" "ERROR" "[test log message pd 12, bar]";
    expected_row 6 25 15 "tidb" "ERROR" "[test log message tidb 12, bar]";
    expected_row 6 25 16 "tidb" "TRACE" "[test log message tidb 13, bar]";
    expected_row 6 25 16 "tikv" "debug" "[test log message tikv 11, bar]";
    expected_row 6 25 17 "tidb" "critical" "[test log message tidb 14, bar]";
    expected_row 6 26 16 "pd" "TRACE" "[test log message pd 13, bar]";
    expected_row 6 26 17 "tikv" "ERROR" "[test log message tikv 12, bar]";
    expected_row 6 27 17 "pd" "critical" "[test log message pd 14, bar]";
    expected_row 6 27 18 "tikv" "TRACE" "[test log message tikv 13, bar]";
    expected_row 6 28 19 "tikv" "critical" "[test log message tikv 14, bar]" ].

(** The expected rows of the case [level='critical']. *)
Definition criticalLogs : list LogRow :=
  [ expected_row 6 19 17 "tidb" "CRITICAL" "[test log message tidb 5, foo]";
    expected_row 6 22 17 "pd" "CRITICAL" "[test log message pd 5, foo]";
    expected_row 6 23 17 "tikv" "CRITICAL" "[test log message tikv 5, foo]";
    expected_row 6 25 17 "tidb" "critical" "[test log message tidb 14, bar]";
    expected_row 6 27 17 "pd" "critical" "[test log message pd 14, bar]";
    expected_row 6 28 19 "tikv" "critical" "[test log message tikv 14, bar]" ].

(** *** A line written late *)




End Cluster.

(** ** Part III: perfschema/profile.go *)

Module Profile.

(** A Go string is taken as the sequence of its code points, so that
    [[]rune(s)] and [string(r)] are the identity and [len(s) == 0] says the
    sequence is empty. *)
Abbreviation rune := Z (only parsing).
Abbreviation text := (list Z) (only parsing).

(** The code points of an ASCII literal. *)
Fixpoint T (s : string) : text :=
  match s with
  | EmptyString => []
  | String c s' => Z.of_nat (nat_of_ascii c) :: T s'
  end.

(** '│', '├', '└', ' ' and '─'. *)
Definition treeBody : rune := 9474.
Definition treeMiddleNode : rune := 9500.
Definition treeLastNode : rune := 9492.
Definition treeGap : rune := 32.
Definition treeNodeIdentifier : rune := 9472.

(** [int64] arithmetic wraps around. *)
Definition int64 (z : Z) : Z := (z + 2 ^ 63) mod 2 ^ 64 - 2 ^ 63.

(** The loop [for i := len(indentBytes) - 1; i >= 0; i--] shared by
    [getIndent4Child] and [prettyIdentifier]: the closest [treeBody], seen
    from the end, is overwritten by [r] and the loop breaks.  [n] is
    [i + 1]. *)
Fixpoint replace_closest (indentBytes : list rune) (r : rune) (n : nat)
  : list rune :=
  match n with
  | O => indentBytes
  | S i =>
      match indentBytes !! i with
      | Some c =>
          if c =? treeBody then <[i := r]> indentBytes
          else replace_closest indentBytes r i
      | None => replace_closest indentBytes r i
      end
  end.

Definition getIndent4Child (indent : text) (isLastChild : bool) : text :=
  if negb isLastChild then indent ++ [treeBody; treeGap]
  else
    let indentBytes := replace_closest indent treeGap (length indent) in
    indentBytes ++ [treeBody; treeGap].

Definition prettyIdentifier (id indent : text) (isLastChild : bool) : text :=
  if (length indent =? 0)%nat then id
  else
    let indentBytes :=
      replace_closest indent
        (if isLastChild then treeLastNode else treeMiddleNode)
        (length indent) in
    let indentBytes :=
      <[(length indentBytes - 1)%nat := treeNodeIdentifier]> indentBytes in
    indentBytes ++ id.

(** [types.Datum], as far as this file builds them: strings and
    integers. *)
Inductive Datum : Type :=
| StringDatum (s : text)
| IntDatum (v : Z).

(** [Node]; the children are held by value, the call tree being a
    tree. *)
#[warnings="-register-all"]
Inductive Node : Type :=
| mkNode (Name Location : text) (Cum : Z) (CumFormat Percent : text)
         (Children : list Node).

Definition Name (n : Node) : text := let 'mkNode x _ _ _ _ _ := n in x.
Definition Location (n : Node) : text := let 'mkNode _ x _ _ _ _ := n in x.
Definition Cum (n : Node) : Z := let 'mkNode _ _ x _ _ _ := n in x.
Definition CumFormat (n : Node) : text := let 'mkNode _ _ _ x _ _ := n in x.
Definition Percent (n : Node) : text := let 'mkNode _ _ _ _ x _ := n in x.
Definition Children (n : Node) : list Node := let 'mkNode _ _ _ _ _ x := n in x.

Section WithFormatting.

(** [measurement.Percentage] and [strings.TrimSpace] come from
    libraries; the development is parametric in both. *)
Variable Percentage : Z -> Z -> text.
Variable TrimSpace : text -> text.

(** The row [collect] makes of one node. *)
Definition node_row (node : Node) (depth : Z) (indent : text)
    (rootChild : Z) (parentCur : Z) (isLastChild : bool) : list Datum :=
  [ StringDatum (prettyIdentifier (Name node) indent isLastChild);
    StringDatum (Percent node);
    StringDatum (TrimSpace (Percentage (Cum node) parentCur));
    IntDatum rootChild;
    IntDatum depth;
    StringDatum (Location node) ].

(** [collect] on the rows gathered so far; the inner [range] is the loop
    over [node.Children] with its index [i]. *)
Fixpoint collect (Rows : list (list Datum)) (node : Node) (depth : Z)
    (indent : text) (rootChild : Z) (parentCur : Z) (isLastChild : bool)
    {struct node} : list (list Datum) :=
  let Rows := Rows ++ [node_row node depth indent rootChild parentCur isLastChild] in
  let indent4Child := getIndent4Child indent isLastChild in
  match node with
  | mkNode _ _ cum _ _ children =>
      (fix range (Rows : list (list Datum)) (i : nat) (rest : list Node)
           {struct rest} : list (list Datum) :=
         match rest with
         | [] => Rows
         | child :: rest' =>
             let rc := if depth =? 0 then Z.of_nat i + 1 else rootChild in
             range (collect Rows child (int64 (depth + 1)) indent4Child rc cum
                            (Nat.eqb i (length children - 1)))
                   (S i) rest'
         end) Rows O children
  end.

(** The loop over the children on its own, from index [i] on, [len] being
    [len(node.Children)]. *)
Fixpoint collect_children (Rows : list (list Datum)) (i : nat)
    (rest : list Node) (len : nat) (depth : Z) (indent4Child : text)
    (rootChild : Z) (cum : Z) : list (list Datum) :=
  match rest with
  | [] => Rows
  | child :: rest' =>
      let rc := if depth =? 0 then Z.of_nat i + 1 else rootChild in
      collect_children
        (collect Rows child (int64 (depth + 1)) indent4Child rc cum
                 (Nat.eqb i (len - 1)))
        (S i) rest' len depth indent4Child rootChild cum
  end.

End WithFormatting.

(** The number of nodes of a tree and its height. *)
Fixpoint size (node : Node) : nat :=
  match node with
  | mkNode _ _ _ _ _ children => S (list_sum (map size children))
  end.

Fixpoint height (node : Node) : nat :=
  match node with
  | mkNode _ _ _ _ _ children =>
      fold_right Nat.max O (map (fun c => S (height c)) children)
  end.

(** The nodes of a tree in pre-order: a node comes before its
    descendants and the subtrees of its children follow in the order of
    [Children]. Each node is paired with the number of edges between it
    and the top, counted from [level], and with the [Cum] of its parent,
    [parentCur] for the top. *)
Fixpoint preorder (level : nat) (parentCur : Z) (node : Node)
  : list (Node * nat * Z) :=
  match node with
  | mkNode _ _ cum _ _ children =>
      (node, level, parentCur) :: flat_map (preorder (S level) cum) children
  end.

(** The depth [collect] gives a node [level] edges below a node of depth
    [depth]. *)
Definition depth_below (depth : Z) (level : nat) : Z :=
  Nat.iter level (fun d => int64 (d + 1)) depth.

(** The ROOT_CHILD and DEPTH columns of a row. *)
Definition root_child_of (row : list Datum) : Z :=
  match row with
  | [_; _; _; IntDatum rc; _; _] => rc
  | _ => -1
  end.

Definition depth_of (row : list Datum) : Z :=
  match row with
  | [_; _; _; _; IntDatum d; _] => d
  | _ => -1
  end.

(** The tree as it is usually drawn: a line is the prefix of its
    ancestors, a connector, and the name; below a last child the prefix
    grows by two gaps, below any other child by a bar and a gap. *)
Fixpoint draw (prefix : text) (isLastChild : bool) (node : Node) {struct node}
  : list text :=
  match node with
  | mkNode name _ _ _ _ children =>
      (prefix
       ++ [if isLastChild then treeLastNode else treeMiddleNode; treeNodeIdentifier]
       ++ name)
      :: (fix below (i : nat) (rest : list Node) {struct rest} : list text :=
            match rest with
            | [] => []
            | child :: rest' =>
                draw (prefix ++ (if isLastChild then [treeGap; treeGap]
                                 else [treeBody; treeGap]))
                     (Nat.eqb i (length children - 1)) child
                ++ below (S i) rest'
            end) O children
  end.

(** The children from index [i] on, drawn under [prefix]. *)
Fixpoint draw_children (prefix : text) (i : nat) (rest : list Node) (len : nat)
  : list text :=
  match rest with
  | [] => []
  | child :: rest' =>
      draw prefix (Nat.eqb i (len - 1)) child
      ++ draw_children prefix (S i) rest' len
  end.

(** The tree below the root, which is drawn bare. *)
Definition draw_root (node : Node) : list text :=
  Name node :: draw_children [] O (Children node) (length (Children node)).

(** The FUNCTION column of a row. *)
Definition function_of (row : list Datum) : text :=
  match row with
  | StringDatum s :: _ => s
  | _ => []
  end.

(** *** The first loop of [profileToDatums] *)

(** What that loop reads of a [graph.Node]: its name, file and line, its
    cumulative value and the number of its incoming edges. *)
Record GraphNode : Type := mkGraphNode {
  Info_Name : text;
  Info_File : text;
  Info_Lineno : Z;
  CumValue : Z;
  len_In : nat
}.

(** [nodes[a], nodes[b] = nodes[b], nodes[a]]. *)
Definition swap {A} (l : list A) (a b : nat) : list A :=
  match l !! a, l !! b with
  | Some x, Some y => <[b := x]> (<[a := y]> l)
  | _, _ => l
  end.

(** The variables the loop updates. *)
Record Roots : Type := mkRoots {
  nodes : list Node;
  nroots : nat;
  rootValue : Z;
  nodeArr : list text
}.

Section WithReport.

(** [measurement.Percentage], [strings.TrimSpace], [config.FormatValue],
    [config.Total] and [fmt.Sprintf("%s:%d", ...)] come from libraries. *)
Variable Percentage : Z -> Z -> text.
Variable TrimSpace : text -> text.
Variable FormatValue : Z -> text.
Variable Total : Z.
Variable Sprintf_location : text -> Z -> text.

Definition make_node (n : GraphNode) : Node :=
  let v := CumValue n in
  mkNode (Info_Name n) (Sprintf_location (Info_File n) (Info_Lineno n)) v
         (FormatValue v) (TrimSpace (Percentage v Total)) [].

(** One turn of [for _, n := range g.Nodes]. *)
Definition roots_step (st : Roots) (n : GraphNode) : Roots :=
  let v := CumValue n in
  let nodes := nodes st ++ [make_node n] in
  if (len_In n =? 0)%nat then
    {| nodes := swap nodes (nroots st) (length nodes - 1);
       nroots := S (nroots st);
       rootValue := int64 (rootValue st + v);
       nodeArr := nodeArr st ++ [Info_Name n] |}
  else
    {| nodes := nodes;
       nroots := nroots st;
       rootValue := rootValue st;
       nodeArr := nodeArr st ++ [Info_Name n] |}.

Definition collect_roots (g_Nodes : list GraphNode) : Roots :=
  fold_left roots_step g_Nodes
            {| nodes := []; nroots := O; rootValue := 0; nodeArr := [] |}.

End WithReport.

Definition is_root (n : GraphNode) : bool := (len_In n =? 0)%nat.

(** The sum of some values, without wrap-around. *)
Definition sum_values (l : list Z) : Z := fold_right Z.add 0 l.

(** *** The loop over the stack of one goroutine in [goroutinesList] *)

Section WithTrim.

Variable TrimSpace : text -> text.

(** The body of [for i := 0; i < len(stack)/2; i++]. *)
Definition frame_step (id : Z) (state : text) (stack : list text)
    (rows : list (list Datum)) (i : nat) : list (list Datum) :=
  match stack !! (i * 2)%nat, stack !! (i * 2 + 1)%nat with
  | Some fn, Some loc =>
      let identifier :=
        if (i =? 0)%nat then fn
        else if (i =? length stack / 2 - 1)%nat then
               [treeLastNode] ++ [treeNodeIdentifier] ++ fn
             else [treeMiddleNode] ++ [treeNodeIdentifier] ++ fn in
      rows ++ [[ StringDatum identifier; IntDatum id; StringDatum state;
                 StringDatum (TrimSpace loc) ]]
  | _, _ => rows
  end.

Definition stack_rows (id : Z) (state : text) (stack : list text)
    (rows : list (list Datum)) : list (list Datum) :=
  fold_left (frame_step id state stack) (seq 0 (length stack / 2)) rows.

(** The row of frame [i] out of [n], with its function and location. *)
Definition frame_row (id : Z) (state : text) (n i : nat) (frame : text * text)
  : list Datum :=
  [ StringDatum
      (if (i =? 0)%nat then fst frame
       else if (i =? n - 1)%nat then [treeLastNode; treeNodeIdentifier] ++ fst frame
            else [treeMiddleNode; treeNodeIdentifier] ++ fst frame);
    IntDatum id; StringDatum state; StringDatum (TrimSpace (snd frame)) ].

End WithTrim.

(** The lines of some frames: function, location, function, ... *)
Definition frame_lines (frames : list (text * text)) : list text :=
  flat_map (fun f => [fst f; snd f]) frames.

(** *** [tikvCpuProfileGraph] *)

(** Errors: [errors.Errorf] with its formatted message, or an error
    handed in by the SQL executor, the HTTP client or the profile
    parser. *)
Inductive Err : Type :=
| Errorf (msg : text)
| External (e : error).

(** The [result] a goroutine sends on the channel. *)
Record result : Type := mkResult {
  res_rows : list (list Datum);
  res_err : option Err
}.

Definition profileInterval : Z := 5.

(** [fmt.Sprintf("http://%s/pprof/cpu?seconds=%d", statusAddr, profileInterval)]. *)
Definition profile_url (statusAddr : text) : text :=
  T "http://" ++ statusAddr ++ T "/pprof/cpu?seconds=" ++ T "5".

Definition no_status_address (name address : text) : Err :=
  Errorf (T "tikv node " ++ name ++ T "(" ++ address
          ++ T ") does not contain status address").

Section WithCluster.

(** The answer to the URL of a node: [http.Get] followed by
    [profileReaderToDatums], either of which may fail. *)
Variable fetch : text -> list (list Datum) + Err.

(** The order in which the channel delivers what the goroutines sent. *)
Variable arrival : list result -> list result.

(** The body of a goroutine. *)
Definition worker (row : text * text * text) : result :=
  let '(name, address, statusAddr) := row in
  match fetch (profile_url statusAddr) with
  | inr err => {| res_rows := []; res_err := Some err |}
  | inl rows =>
      {| res_rows := map (fun r => [StringDatum name; StringDatum address] ++ r) rows;
         res_err := None |}
  end.

Definition has_status (row : text * text * text) : bool :=
  negb (length (snd row) =? 0)%nat.

(** [for result := range ch]: [err] is the variable of the enclosing
    function, which is nil once the query has succeeded. *)
Definition gather (err : option Err)
    (acc : list (list Datum) * list (option Err)) (r : result)
  : list (list Datum) * list (option Err) :=
  match res_err r with
  | Some _ => (fst acc, snd acc ++ [err])
  | None => (fst acc ++ res_rows r, snd acc)
  end.

(** The rows returned, the error returned, and the warnings appended to
    the statement context; [sql] is what [ExecRestrictedSQL] gave. *)
Definition tikvCpuProfileGraph (sql : list (text * text * text) + Err)
  : list (list Datum) * option Err * list (option Err) :=
  match sql with
  | inr err => ([], Some err, [])
  | inl rows =>
      let err : option Err := None in
      let skipped :=
        map (fun row => Some (no_status_address (fst (fst row)) (snd (fst row))))
            (List.filter (fun row => negb (has_status row)) rows) in
      let ch := arrival (map worker (List.filter has_status rows)) in
      let '(finalRows, warnings) := fold_left (gather err) ch ([], skipped) in
      (finalRows, None, warnings)
  end.

End WithCluster.

(** A result that carries no error. *)
Definition succeeded (r : result) : bool :=
  match res_err r with
  | None => true
  | Some _ => false
  end.

(** *** Sample inputs *)

(** Two frames of a goroutine and a stray last line. *)
Definition sample_frames : list (text * text) :=
  [ (T "main.work()", T "  /app/work.go:12");
    (T "main.main()", T "  /app/main.go:30") ].

(** Three TiKV nodes, the second without status address. *)
Definition sample_nodes : list (text * text * text) :=
  [ (T "tikv-0", T "10.0.0.1:20160", T "10.0.0.1:20180");
    (T "tikv-1", T "10.0.0.2:20160", []);
    (T "tikv-2", T "10.0.0.3:20160", T "10.0.0.3:20180") ].

(** Only the first node answers. *)
Definition sample_fetch (url : text) : list (list Datum) + Err :=
  if bool_decide (url = profile_url (T "10.0.0.1:20180")) then
    inl [ [StringDatum (T "root"); IntDatum 0];
          [StringDatum (T "main"); IntDatum 1] ]
  else inr (External (errors_New "connection refused")).

(** Nobody answers. *)
Definition dead_fetch (url : text) : list (list Datum) + Err :=
  inr (External (errors_New "connection refused")).

(** The results arrive in the reverse of the order of launch. *)
Definition sample_arrival (l : list result) : list result := rev l.

Definition sample_Percentage (v total : Z) : text := T "50%".
Definition sample_TrimSpace (s : text) : text := s.

(** A call tree: main calls parse, which calls lex, and run. *)
Definition sample_tree : Node :=
  mkNode (T "root") (T "root") 100 (T "100ms") (T "100%")
    [ mkNode (T "main") (T "main.go:10") 100 (T "100ms") (T "100%")
        [ mkNode (T "parse") (T "parse.go:7") 60 (T "60ms") (T "60%")
            [ mkNode (T "lex") (T "lex.go:3") 20 (T "20ms") (T "20%") [] ];
          mkNode (T "run") (T "run.go:5") 40 (T "40ms") (T "40%") [] ] ].

End Profile.

(** ** Further sample states of the session store *)

Module SearchSamples.
Import Search.

(** A log directory that opens on the three sample items. *)
Definition working_NewSequence (dir : string) (begin end_ : Time)
  : Sequence + error :=
  inl (mkSequence sample_items None).

(** An open iterator whose sequence fails to close. *)
Definition failing_close_iter : IterWithAccessTime :=
  {| iter := Some (mkSequence sample_items (Some (errors_New "close failed")));
     access := 0;
     search := [];
     level := "" |}.

(** A sequence that hits a read error after an item that is filtered
    out. *)
Definition broken_iter : IterWithAccessTime :=
  {| iter := Some (mkSequence
                     [ inl (sample_item 2 LevelERROR "region unavailable");
                       inr (errors_New "read failed");
                       inl (sample_item 3 LevelERROR "slow query bar") ]
                     None);
     access := 0;
     search := list_byte_of_string "slow";
     level := "" |}.

(** An iterator that has been idle since instant 0, in a store of its
    own; sixty-one seconds, as an instant. *)
Definition after_61s : Time := 61 * time_Second.

End SearchSamples.

(** ** The searcher over time *)

Module Sessions.
Import Search.

(** What acts on a searcher: the calls of its clients and the steps of
    its watcher goroutines. *)
Inductive event : Type :=
| CallSearch (u : UUID) (now : Time) (dir : string) (begin end_ : Time)
             (level text token : string)
| CallNext (p : ptr) (now : Time)
| CallClose (p : ptr)
| GcStart (token : string) (p : ptr)
| GcCheck (token : string) (p : ptr) (now : Time).

(** The program state together with the values [uuid.New()] has returned
    so far. *)
Record System : Type := mkSystem {
  world : World;
  generated : list UUID
}.

Definition initial : System :=
  {| world := {| srv := NewSearcher; heap := ∅; goroutines := [] |};
     generated := [] |}.

Section WithParser.

Variable ParseLogLevel : list byte -> LevelType.
Variable NewSequence : string -> Time -> Time -> Sequence + error.

(** A method call on an iterator that may not exist leaves the state as
    it is in that case. *)
Definition after_call {R} (f : IterWithAccessTime -> R * IterWithAccessTime)
    (w : World) (p : ptr) : World :=
  match call f w p with
  | Some (_, w') => w'
  | None => w
  end.

Definition step (sys : System) (ev : event) : System :=
  match ev with
  | CallSearch u now dir begin end_ level text token =>
      {| world := snd (Search NewSequence (world sys) u now dir begin end_
                              level text token);
         generated := if String.eqb token "" then u :: generated sys
                      else generated sys |}
  | CallNext p now =>
      {| world := after_call (fun i => Next ParseLogLevel i now) (world sys) p;
         generated := generated sys |}
  | CallClose p =>
      {| world := after_call Close (world sys) p;
         generated := generated sys |}
  | GcStart token p =>
      {| world := SetIter (world sys) token p;
         generated := generated sys |}
  | GcCheck token p now =>
      {| world := fst (Gc_iteration (world sys) token p now);
         generated := generated sys |}
  end.

(** What the environment guarantees of an event: [uuid.New()] returns
    sixteen bytes that it has not returned before, and a watcher acts only
    for the token and iterator it was started with. The order of the
    steps of a watcher is left free, so that the histories of the program
    are among the allowed ones. *)
Definition allowed (sys : System) (ev : event) : Prop :=
  match ev with
  | CallSearch u _ _ _ _ _ _ token =>
      token = "" -> length u = 16%nat /\ ~ In u (generated sys)
  | CallNext _ _ => True
  | CallClose _ => True
  | GcStart token p => In (token, p) (goroutines (world sys))
  | GcCheck token p _ => In (token, p) (goroutines (world sys))
  end.

Fixpoint run (sys : System) (evs : list event) : System :=
  match evs with
  | [] => sys
  | ev :: rest => run (step sys ev) rest
  end.

Fixpoint allowed_trace (sys : System) (evs : list event) : Prop :=
  match evs with
  | [] => True
  | ev :: rest => allowed sys ev /\ allowed_trace (step sys ev) rest
  end.

End WithParser.

(** *** Reading a rendered UUID back *)

Definition hex_value (c : ascii) : N :=
  match String.index 0 (String c EmptyString) "0123456789abcdef" with
  | Some n => N.of_nat n
  | None => 0%N
  end.

Definition byte_of_hex (hi lo : ascii) : byte :=
  match Byte.of_N (hex_value hi * 16 + hex_value lo)%N with
  | Some b => b
  | None => Byte.x00
  end.

Fixpoint hex_Decode (s : string) : list byte :=
  match s with
  | String hi (String lo s') => byte_of_hex hi lo :: hex_Decode s'
  | _ => []
  end.

Fixpoint without_dashes (s : string) : string :=
  match s with
  | EmptyString => EmptyString
  | String c s' =>
      if Ascii.eqb c "-"%char then without_dashes s'
      else String c (without_dashes s')
  end.

(** The sixteen bytes a rendered UUID stands for. *)
Definition UUID_bytes (s : string) : list byte :=
  hex_Decode (without_dashes s).

(** *** A sample history *)

(** "/var/log" opens on the sample items, nothing else opens. *)
Definition var_log_NewSequence (dir : string) (begin end_ : Time)
  : Sequence + error :=
  if String.eqb dir "/var/log" then inl (mkSequence sample_items None)
  else inr (errors_New "open: no such file or directory").

Definition uuid_a : UUID :=
  [ Byte.x00; Byte.x01; Byte.x02; Byte.x03; Byte.x04; Byte.x05; Byte.x06; Byte.x07;
    Byte.x08; Byte.x09; Byte.x0a; Byte.x0b; Byte.x0c; Byte.x0d; Byte.x0e; Byte.x0f ].

Definition uuid_b : UUID :=
  [ Byte.xf0; Byte.xf1; Byte.xf2; Byte.xf3; Byte.xf4; Byte.xf5; Byte.xf6; Byte.xf7;
    Byte.xf8; Byte.xf9; Byte.xfa; Byte.xfb; Byte.xfc; Byte.xfd; Byte.xfe; Byte.xff ].

(** A session is created and registered by its watcher. *)
Definition history_before : list event :=
  [ CallSearch uuid_a 10 "/var/log" 0 0 "" "" "";
    GcStart (UUID_String uuid_a) 1%positive ].

(** Later the first session is read, another one is created and
    registered, and the watcher of the first makes a check. *)
Definition history_after : list event :=
  [ CallNext 1%positive 20;
    CallSearch uuid_b 30 "/var/log" 0 0 "" "" "";
    GcStart (UUID_String uuid_b) 2%positive;
    GcCheck (UUID_String uuid_a) 1%positive 40 ].

End Sessions.

(** * Properties of search.go *)

Module SearchFacts.
Import Search.

(** ** Bytes and tokens *)

Lemma bytes_HasPrefix_app (prefix rest : list byte) :
  bytes_HasPrefix (prefix ++ rest) prefix = true.
Proof.
  induction prefix as [|p prefix IH]; simpl; [reflexivity|].
  rewrite Byte.byte_dec_lb by reflexivity. exact IH.
Qed.

Lemma bytes_HasPrefix_inv (s prefix : list byte) :
  bytes_HasPrefix s prefix = true -> exists rest, s = prefix ++ rest.
Proof.
  revert s. induction prefix as [|p prefix IH]; intros s H.
  - exists s. reflexivity.
  - destruct s as [|c s]; simpl in H; [discriminate|].
    apply andb_prop in H as [Hc Hs].
    apply Byte.byte_dec_bl in Hc. subst c.
    destruct (IH _ Hs) as [rest ->]. exists rest. reflexivity.
Qed.

(** [bytes_Contains b sub] holds exactly when [sub] occurs in [b]. *)
Lemma bytes_Contains_spec (b sub : list byte) :
  bytes_Contains b sub = true <-> exists pre post, b = pre ++ sub ++ post.
Proof.
  split.
  - induction b as [|c b IH]; simpl; intros H.
    + rewrite orb_false_r in H. apply bytes_HasPrefix_inv in H as [rest H].
      exists [], rest. exact H.
    + apply orb_prop in H as [H|H].
      * apply bytes_HasPrefix_inv in H as [rest H]. exists [], rest. exact H.
      * destruct (IH H) as (pre & post & ->). exists (c :: pre), post. reflexivity.
  - intros (pre & post & ->). induction pre as [|c pre IH].
    + change ([] ++ sub ++ post) with (sub ++ post).
      pose proof (bytes_HasPrefix_app sub post) as H.
      destruct (sub ++ post); simpl; rewrite H; reflexivity.
    + simpl. rewrite IH. apply orb_true_r.
Qed.

Lemma bytes_Contains_empty (b : list byte) : bytes_Contains b [] = true.
Proof. destruct b; reflexivity. Qed.

Lemma append_nonempty (a b : string) : b <> "" -> (a ++ b)%string <> "".
Proof.
  intros Hb. destruct a; simpl; [exact Hb | discriminate].
Qed.

(** A rendered UUID is never the empty string. *)
Lemma UUID_String_nonempty (u : UUID) : UUID_String u <> "".
Proof. unfold UUID_String. apply append_nonempty. discriminate. Qed.

Section WithParser.

Variable ParseLogLevel : list byte -> LevelType.
Variable NewSequence : string -> Time -> Time -> Sequence + error.

(** ** The token branch of [Search] *)

(** C1, as the code has it: for a non-empty token with a live entry,
    [Search] returns the stored iterator and the token with no error and
    leaves the store and the iterator, its access time included, as they
    were, whatever dir, begin, end, level and text are; the access time is
    refreshed by the [Next] call that follows, which sets it to the instant
    of that call. *)
Theorem Search_live_token (w : World) (u : UUID) (now : Time)
    (dir : string) (begin end_ : Time) (level text token : string)
    (p : ptr) (i : IterWithAccessTime) :
  token <> "" ->
  GetIter w token = Some p ->
  heap w !! p = Some i ->
  Search NewSequence w u now dir begin end_ level text token
    = ((Some p, token, None), w)
  /\ forall t, exists r w',
       call (fun i => Next ParseLogLevel i t) w p = Some (r, w')
       /\ (access <$> heap w' !! p) = Some t
       /\ srv w' = srv w.
Proof.
  intros Htok Hget Hheap. split.
  - unfold Search. destruct (String.eqb_spec token ""); [contradiction|].
    rewrite Hget. reflexivity.
  - intros t. unfold call. rewrite Hheap.
    destruct (Next ParseLogLevel i t) as [r i'] eqn:E.
    exists r. eexists. split; [reflexivity|]. simpl.
    rewrite lookup_insert_eq. simpl. split; [|reflexivity].
    unfold Next in E. simpl in E. destruct (iter i) as [q|].
    + destruct (Next_loop _ _ _ _) in E. inversion E. reflexivity.
    + inversion E. reflexivity.
Qed.

(** C3: a non-empty token without a live entry gives the error
    "target not found", a nil iterator and the same token, and the store
    is left as it was. *)
Theorem Search_unknown_token (w : World) (u : UUID) (now : Time)
    (dir : string) (begin end_ : Time) (level text token : string) :
  token <> "" ->
  GetIter w token = None ->
  Search NewSequence w u now dir begin end_ level text token
    = ((None, token, Some (errors_New "target not found")), w).
Proof.
  intros Htok Hget. unfold Search.
  destruct (String.eqb_spec token ""); [contradiction|].
  rewrite Hget. reflexivity.
Qed.

(** One failing creation on its own: with an empty token and a failing
    [NewSequence], [Search] returns that error with a rendered, non-empty
    token and a nil iterator; the program state is untouched (no entry, no
    goroutine), so presenting the token afterwards, when no session holds
    it, gives "target not found". *)
Theorem Search_sequence_failure (w : World) (u : UUID) (now : Time)
    (dir : string) (begin end_ : Time) (level text : string) (err : error) :
  NewSequence dir begin end_ = inr err ->
  Search NewSequence w u now dir begin end_ level text ""
    = ((None, UUID_String u, Some err), w)
  /\ UUID_String u <> ""
  /\ (GetIter w (UUID_String u) = None ->
      forall u' now' dir' begin' end' level' text',
        Search NewSequence w u' now' dir' begin' end' level' text' (UUID_String u)
          = ((None, UUID_String u, Some (errors_New "target not found")), w)).
Proof.
  intros Hseq. split; [|split].
  - unfold Search. simpl. rewrite Hseq. reflexivity.
  - apply UUID_String_nonempty.
  - intros Hfresh u' now' dir' begin' end' level' text'. unfold Search.
    destruct (String.eqb_spec (UUID_String u) "") as [E|_].
    + exfalso. exact (UUID_String_nonempty u E).
    + rewrite Hfresh. reflexivity.
Qed.

(** C1 as stated fails: the lookup of a live session at instant 100
    returns its iterator but leaves the access time at 0. *)
Lemma Search_live_token_access_unchanged :
  GetIter one_session "t" = Some 1%positive
  /\ fst lookup_at_100 = (Some 1%positive, "t", None)
  /\ (access <$> heap (snd lookup_at_100) !! 1%positive) = Some 0
  /\ (access <$> heap (snd lookup_at_100) !! 1%positive) <> Some 100.
Proof.
  assert (E : lookup_at_100 = ((Some 1%positive, "t", None), one_session))
    by reflexivity.
  rewrite E. simpl. unfold GetIter. simpl.
  rewrite !lookup_singleton_eq. simpl.
  repeat split; try reflexivity; discriminate.
Qed.

(** ** [Next] *)

Lemma keeps_ext (i i' : IterWithAccessTime) (it : Item) :
  search i = search i' -> level i = level i' ->
  keeps ParseLogLevel i it = keeps ParseLogLevel i' it.
Proof. intros Hs Hl. unfold keeps. rewrite Hs, Hl. reflexivity. Qed.

Lemma Next_loop_ext (i i' : IterWithAccessTime) (c : option error)
    (p : list (Item + error)) :
  search i = search i' -> level i = level i' ->
  Next_loop ParseLogLevel i c p = Next_loop ParseLogLevel i' c p.
Proof.
  intros Hs Hl. induction p as [|[it|err] p IH]; simpl; [reflexivity| |reflexivity].
  rewrite (keeps_ext i i' it Hs Hl), IH. reflexivity.
Qed.

(** The loop is the repetition of [Sequence.Next] until an error or a kept
    item comes. *)
Lemma Next_loop_unfold (i : IterWithAccessTime) (c : option error)
    (p : list (Item + error)) :
  Next_loop ParseLogLevel i c p =
    let '(r, q') := Sequence_Next (mkSequence p c) in
    match r with
    | inr err => (inr err, q')
    | inl it =>
        if keeps ParseLogLevel i it then (inl it, q')
        else Next_loop ParseLogLevel i (close_result q') (pending q')
    end.
Proof. destruct p as [|[it|err] p]; reflexivity. Qed.

(** What the test of the loop means. *)
Lemma keeps_spec (i : IterWithAccessTime) (it : Item) :
  keeps ParseLogLevel i it = true <->
  (exists pre post, GetContent it = pre ++ search i ++ post)
  /\ (level i = ""
      \/ GetLevel it = ParseLogLevel (list_byte_of_string (level i))).
Proof.
  unfold keeps. rewrite andb_true_iff, orb_true_iff, bytes_Contains_spec.
  rewrite String.eqb_eq, bool_decide_eq_true. reflexivity.
Qed.

(** One pass of the loop: what it returns and what it leaves behind make
    up the kept items of what it started from, and it consumes something
    unless nothing was left. *)
Lemma Next_loop_spec (i : IterWithAccessTime) (c : option error)
    (p : list (Item + error)) (r : Item + error) (q' : Sequence) :
  Next_loop ParseLogLevel i c p = (r, q') ->
  close_result q' = c
  /\ List.filter (keeps ParseLogLevel i) (items_of p)
     = items_of [r] ++ List.filter (keeps ParseLogLevel i) (items_of (pending q'))
  /\ ((length (pending q') < length p)%nat \/ (p = [] /\ pending q' = [])).
Proof.
  revert r q'. induction p as [|[it|err] p IH]; simpl; intros r q' H.
  - inversion H; subst. simpl. auto.
  - destruct (keeps ParseLogLevel i it) eqn:K.
    + inversion H; subst. simpl. repeat split; auto with arith.
    + destruct (IH _ _ H) as (Hc & Hf & Hl).
      repeat split; [exact Hc | exact Hf |].
      left. destruct Hl as [Hl | [-> ->]]; simpl; lia.
  - inversion H; subst. simpl. repeat split; auto with arith.
Qed.

Lemma Next_spec (i : IterWithAccessTime) (q : Sequence) (now : Time)
    (r : Item + error) (i' : IterWithAccessTime) :
  iter i = Some q ->
  Next ParseLogLevel i now = (r, i') ->
  exists q',
    iter i' = Some q' /\ search i' = search i /\ level i' = level i
    /\ access i' = now
    /\ List.filter (keeps ParseLogLevel i) (items_of (pending q))
       = items_of [r] ++ List.filter (keeps ParseLogLevel i) (items_of (pending q'))
    /\ ((length (pending q') < length (pending q))%nat
        \/ (pending q = [] /\ pending q' = [])).
Proof.
  intros Hq H. unfold Next in H. simpl in H. rewrite Hq in H.
  rewrite (Next_loop_ext _ i) in H by reflexivity.
  destruct (Next_loop ParseLogLevel i (close_result q) (pending q)) as [r0 q0] eqn:E.
  inversion H; subst. exists q0. simpl.
  destruct (Next_loop_spec _ _ _ _ _ E) as (_ & Hf & Hl). auto 10.
Qed.

Lemma items_of_cons (r : Item + error) (rs : list (Item + error)) :
  items_of (r :: rs) = items_of [r] ++ items_of rs.
Proof. destruct r; reflexivity. Qed.

Lemma Next_many_spec (nows : list Time) (i : IterWithAccessTime) (q : Sequence) :
  iter i = Some q ->
  exists q',
    iter (snd (Next_many ParseLogLevel i nows)) = Some q'
    /\ List.filter (keeps ParseLogLevel i) (items_of (pending q))
       = items_of (fst (Next_many ParseLogLevel i nows))
         ++ List.filter (keeps ParseLogLevel i) (items_of (pending q'))
    /\ ((length (pending q') + length nows <= length (pending q))%nat
        \/ pending q' = []).
Proof.
  revert i q. induction nows as [|now later IH]; intros i q Hq; simpl.
  - exists q. split; [exact Hq|]. split; [reflexivity|]. left. lia.
  - destruct (Next ParseLogLevel i now) as [r i1] eqn:E1.
    destruct (Next_spec _ _ _ _ _ Hq E1) as (q1 & Hq1 & Hs & Hlv & _ & Hf & Hl).
    destruct (IH i1 q1 Hq1) as (q2 & Hq2 & Hf2 & Hl2).
    destruct (Next_many ParseLogLevel i1 later) as [rs i2] eqn:E2.
    simpl in *. exists q2. split; [exact Hq2|]. split.
    + rewrite Hf.
      assert (Hk : List.filter (keeps ParseLogLevel i) (items_of (pending q1))
                   = items_of rs
                     ++ List.filter (keeps ParseLogLevel i) (items_of (pending q2))).
      { rewrite !(List.filter_ext (keeps ParseLogLevel i) (keeps ParseLogLevel i1))
          by (intros it; symmetry; apply keeps_ext; assumption).
        exact Hf2. }
      rewrite Hk. destruct r; reflexivity.
    + destruct Hl2 as [Hl2 | Hl2]; [|right; exact Hl2].
      destruct Hl as [Hl | [Hp Hp1]]; [left; lia|].
      right. rewrite Hp1 in Hl2. destruct (pending q2); [reflexivity|simpl in Hl2; lia].
Qed.

(** C6: the items that successive [Next] calls yield are, in order, an
    initial part of the items of the underlying sequence that contain the
    search text and, when a level is set, have the parsed level; once the
    calls outnumber what the sequence held they are exactly those items.
    Items failing a test are dropped, never yielded. *)
Theorem Next_many_filters (i : IterWithAccessTime) (q : Sequence)
    (nows : list Time) :
  iter i = Some q ->
  let wanted := List.filter (keeps ParseLogLevel i) (items_of (pending q)) in
  let yielded := items_of (fst (Next_many ParseLogLevel i nows)) in
  (forall it, keeps ParseLogLevel i it = true <->
     (exists pre post, GetContent it = pre ++ search i ++ post)
     /\ (level i = ""
         \/ GetLevel it = ParseLogLevel (list_byte_of_string (level i))))
  /\ (exists rest, wanted = yielded ++ rest)
  /\ ((length (pending q) < length nows)%nat -> yielded = wanted).
Proof.
  intros Hq wanted yielded. split; [intros it; apply keeps_spec|].
  destruct (Next_many_spec nows i q Hq) as (q' & _ & Hf & Hl).
  fold wanted yielded in Hf. split.
  - eexists. exact Hf.
  - intros Hlen. destruct Hl as [Hl | Hl]; [lia|].
    rewrite Hf, Hl. simpl. rewrite app_nil_r. reflexivity.
Qed.

Lemma Close_closes (i : IterWithAccessTime) :
  iter (snd (Close i)) = None
  /\ access (snd (Close i)) = access i
  /\ search (snd (Close i)) = search i
  /\ level (snd (Close i)) = level i.
Proof. unfold Close. destruct (iter i) eqn:E; simpl; auto. Qed.

Lemma last_cons_default {A} (l : list A) (x d d' : A) :
  List.last (x :: l) d = List.last (x :: l) d'.
Proof.
  revert x. induction l as [|y l IH]; intros x; [reflexivity|].
  change (List.last (y :: l) d = List.last (y :: l) d'). apply IH.
Qed.

(** C5, as the code has it: on an iterator that has been closed every
    [Next] call returns the error "log file closed" and no item; the
    iterator stays closed and keeps its filters, and only its access time
    moves, to the instant of the latest call. *)
Theorem Next_on_closed (i : IterWithAccessTime) (nows : list Time) :
  iter i = None ->
  Next_many ParseLogLevel i nows
    = (map (fun _ => inr (errors_New "log file closed")) nows,
       {| iter := None; access := List.last nows (access i);
          search := search i; level := level i |}).
Proof.
  revert i. induction nows as [|now later IH]; intros i Hi.
  - simpl. destruct i; simpl in *; subst; reflexivity.
  - cbn [Next_many]. unfold Next. simpl. rewrite Hi.
    rewrite IH by reflexivity. simpl.
    destruct later as [|t later]; [reflexivity|].
    rewrite (last_cons_default later t (access i) now). reflexivity.
Qed.

End WithParser.

(** ** The idle watcher *)

(** The two outcomes of a turn of the loop. *)
Lemma Gc_iteration_cases (w : World) (token : string) (p : ptr)
    (i : IterWithAccessTime) (now : Time) :
  heap w !! p = Some i ->
  (60 * time_Second < now - access i
   /\ Gc_iteration w token p now = (Gc_removed w token p i, true))
  \/ (now - access i <= 60 * time_Second
      /\ Gc_iteration w token p now = (w, false)).
Proof.
  intros Hheap. unfold Gc_iteration. rewrite Hheap.
  unfold Time_Before, Time_Add, GetAccessTime, DURATION.
  destruct (Z.ltb_spec (access i + 60 * time_Second) now) as [Hlt | Hge].
  - left. split; [lia|]. unfold call. cbn [DelIter heap]. rewrite Hheap.
    unfold Gc_removed. destruct (Close i) as [e i']. reflexivity.
  - right. split; [lia | reflexivity].
Qed.

Lemma Gc_removed_state (w : World) (token : string) (p : ptr)
    (i : IterWithAccessTime) :
  GetIter (Gc_removed w token p i) token = None
  /\ (iter <$> heap (Gc_removed w token p i) !! p) = Some None.
Proof.
  split.
  - unfold GetIter. simpl. apply lookup_delete_eq.
  - simpl. rewrite lookup_insert_eq. simpl.
    rewrite (proj1 (Close_closes i)). reflexivity.
Qed.


(** At exactly sixty seconds of idleness the session is still kept. *)
Lemma Gc_keeps_at_sixty_seconds (w : World) (token : string) (p : ptr)
    (i : IterWithAccessTime) :
  heap w !! p = Some i ->
  Gc_iteration w token p (access i + 60 * time_Second) = (w, false).
Proof.
  intros Hheap.
  destruct (Gc_iteration_cases w token p i (access i + 60 * time_Second) Hheap)
    as [[Hidle _] | [_ E]]; [lia | exact E].
Qed.

(** Left unused, a session is removed by the first check made after the
    watcher's sleep has run out. *)
Lemma Gc_stops_after_sleep (w : World) (token : string) (p : ptr)
    (i : IterWithAccessTime) (t0 now : Time) :
  heap w !! p = Some i ->
  Gc_wakeup i t0 < now ->
  Gc_iteration w token p now = (Gc_removed w token p i, true).
Proof.
  intros Hheap Hnow.
  unfold Gc_wakeup, time_Sleep, time_Since, GetAccessTime, DURATION in Hnow.
  destruct (Gc_iteration_cases w token p i now Hheap) as [[_ E] | [Hused _]];
    [exact E | lia].
Qed.

(** [Gc] first registers the iterator under its token. *)
Lemma Gc_registers (w : World) (token : string) (p : ptr) :
  Gc w token p [] = (SetIter w token p, false)
  /\ GetIter (SetIter w token p) token = Some p.
Proof. split; [reflexivity|]. unfold GetIter. simpl. apply lookup_insert_eq. Qed.

(** Once the watcher has removed a session, its token is no longer
    found. *)
Lemma Search_after_removal (NewSequence : string -> Time -> Time -> Sequence + error)
    (w : World) (token : string) (p : ptr) (i : IterWithAccessTime)
    (u : UUID) (now : Time) (dir : string) (begin end_ : Time)
    (level text : string) :
  token <> "" ->
  Search NewSequence (Gc_removed w token p i) u now dir begin end_ level text token
    = ((None, token, Some (errors_New "target not found")), Gc_removed w token p i).
Proof.
  intros Htok. unfold Search.
  destruct (String.eqb_spec token ""); [contradiction|].
  rewrite (proj1 (Gc_removed_state w token p i)). reflexivity.
Qed.

(** ** The theorems at sample states *)

Example UUID_String_sample :
  UUID_String sample_uuid = "6ba7b810-9dad-11d1-80b4-00c04fd430c8".
Proof. reflexivity. Qed.

Example Next_many_sample :
  items_of (fst (Next_many Cluster.ParseLogLevel idle_iter [10; 20; 30; 40]))
  = [ sample_item 1 LevelINFO "slow query foo";
      sample_item 3 LevelERROR "slow query bar" ]
  /\ items_of (fst (Next_many Cluster.ParseLogLevel error_iter [10; 20; 30; 40]))
     = [ sample_item 3 LevelERROR "slow query bar" ].
Proof. split; reflexivity. Qed.

(** C5 as stated fails: [Next] on a closed iterator does change it, the
    access time moving from 0 to the instant 5 of the call. *)
Lemma Next_on_closed_changes_access :
  iter closed_iter = None
  /\ fst (Next Cluster.ParseLogLevel closed_iter 5)
     = inr (errors_New "log file closed")
  /\ snd (Next Cluster.ParseLogLevel closed_iter 5) <> closed_iter
  /\ access (snd (Next Cluster.ParseLogLevel closed_iter 5)) = 5.
Proof. repeat split; try reflexivity. intros H. inversion H. Qed.

Lemma Search_live_token_witness :
  "t" <> ""
  /\ GetIter one_session "t" = Some 1%positive
  /\ heap one_session !! 1%positive = Some idle_iter
  /\ (Search failing_NewSequence one_session sample_uuid 100 "" 0 0 "" "" "t"
        = ((Some 1%positive, "t", None), one_session)
      /\ forall t, exists r w',
           call (fun i => Next Cluster.ParseLogLevel i t) one_session 1%positive
             = Some (r, w')
           /\ (access <$> heap w' !! 1%positive) = Some t
           /\ srv w' = srv one_session).
Proof.
  split; [discriminate|]. split; [reflexivity|]. split; [reflexivity|].
  apply (Search_live_token Cluster.ParseLogLevel failing_NewSequence
           one_session sample_uuid 100 "" 0 0 "" "" "t" 1%positive idle_iter);
    [discriminate | reflexivity | reflexivity].
Defined.

Lemma Search_unknown_token_witness :
  "gone" <> ""
  /\ GetIter one_session "gone" = None
  /\ Search failing_NewSequence one_session sample_uuid 100 "" 0 0 "" "" "gone"
       = ((None, "gone", Some (errors_New "target not found")), one_session).
Proof.
  split; [discriminate|]. split; [reflexivity|].
  apply (Search_unknown_token failing_NewSequence one_session sample_uuid 100
           "" 0 0 "" "" "gone"); [discriminate | reflexivity].
Defined.

Lemma Search_sequence_failure_witness :
  failing_NewSequence "/var/log" 0 0
    = inr (errors_New "open: no such file or directory")
  /\ Search failing_NewSequence one_session sample_uuid 100 "/var/log" 0 0 "" "" ""
       = ((None, UUID_String sample_uuid,
           Some (errors_New "open: no such file or directory")), one_session)
  /\ UUID_String sample_uuid <> ""
  /\ Search failing_NewSequence one_session sample_uuid 200 "/var/log" 0 0 "" ""
            (UUID_String sample_uuid)
       = ((None, UUID_String sample_uuid,
           Some (errors_New "target not found")), one_session).
Proof.
  split; [reflexivity|].
  pose proof (Search_sequence_failure failing_NewSequence one_session
                sample_uuid 100 "/var/log" 0 0 "" ""
                (errors_New "open: no such file or directory") eq_refl)
    as (Hfail & Hne & Hlater).
  split; [exact Hfail|]. split; [exact Hne|].
  apply Hlater. reflexivity.
Defined.

Lemma Next_many_filters_witness :
  iter idle_iter = Some (mkSequence sample_items None)
  /\ (length (pending (mkSequence sample_items None)) < length [10; 20; 30; 40])%nat
  /\ items_of (fst (Next_many Cluster.ParseLogLevel idle_iter [10; 20; 30; 40]))
     = List.filter (keeps Cluster.ParseLogLevel idle_iter)
                   (items_of (pending (mkSequence sample_items None))).
Proof.
  split; [reflexivity|].
  assert (Hlen : (length (pending (mkSequence sample_items None))
                  < length [10; 20; 30; 40])%nat) by (simpl; lia).
  split; [exact Hlen|].
  apply (Next_many_filters Cluster.ParseLogLevel idle_iter
           (mkSequence sample_items None) [10; 20; 30; 40] eq_refl).
  exact Hlen.
Defined.

Lemma Next_on_closed_witness :
  iter closed_iter = None
  /\ Next_many Cluster.ParseLogLevel closed_iter [5; 6]
     = ([inr (errors_New "log file closed"); inr (errors_New "log file closed")],
        {| iter := None; access := 6;
           search := search closed_iter; level := level closed_iter |}).
Proof.
  split; [reflexivity|].
  apply (Next_on_closed Cluster.ParseLogLevel closed_iter [5; 6]). reflexivity.
Defined.


End SearchFacts.

(** * Sessions over the life of a searcher *)

Module SessionFacts.
Import Search Sessions.

(** ** A rendered UUID determines its bytes *)

Lemma byte_of_hex_hexdigit (b : byte) :
  byte_of_hex (hexdigit (Byte.to_N b / 16)) (hexdigit (Byte.to_N b mod 16)) = b.
Proof. destruct b; vm_compute; reflexivity. Qed.

Lemma hex_Decode_Encode (l : list byte) : hex_Decode (hex_Encode l) = l.
Proof.
  induction l as [|b l IH]; [reflexivity|].
  cbn [hex_Encode hex_Decode]. rewrite byte_of_hex_hexdigit, IH. reflexivity.
Qed.

Lemma hexdigit_not_dash (n : N) : Ascii.eqb (hexdigit n) "-" = false.
Proof.
  unfold hexdigit. generalize (N.to_nat n) as k. intros k.
  do 16 (destruct k as [|k]; [reflexivity|]). reflexivity.
Qed.

Lemma without_dashes_hex (l : list byte) :
  without_dashes (hex_Encode l) = hex_Encode l.
Proof.
  induction l as [|b l IH]; [reflexivity|].
  cbn [hex_Encode without_dashes]. rewrite !hexdigit_not_dash, IH. reflexivity.
Qed.

Lemma without_dashes_app (a b : string) :
  without_dashes (a ++ b)%string = (without_dashes a ++ without_dashes b)%string.
Proof.
  induction a as [|c a IH]; [reflexivity|].
  change (String c a ++ b)%string with (String c (a ++ b)%string).
  cbn [without_dashes]. destruct (Ascii.eqb c "-"); [exact IH|].
  change (String c (without_dashes a) ++ without_dashes b)%string
    with (String c (without_dashes a ++ without_dashes b)%string).
  rewrite IH. reflexivity.
Qed.

Lemma hex_Encode_app (a b : list byte) :
  hex_Encode (a ++ b) = (hex_Encode a ++ hex_Encode b)%string.
Proof.
  induction a as [|x a IH]; [reflexivity|].
  cbn [app hex_Encode]. rewrite IH. reflexivity.
Qed.

Lemma UUID_bytes_String (u : UUID) :
  length u = 16%nat -> UUID_bytes (UUID_String u) = u.
Proof.
  intros Hlen. unfold UUID_bytes, UUID_String.
  rewrite !without_dashes_app, !without_dashes_hex.
  change (without_dashes "-") with EmptyString.
  assert (Hnil : forall x : string, (EmptyString ++ x)%string = x) by reflexivity.
  rewrite !Hnil. rewrite <- !hex_Encode_app, hex_Decode_Encode.
  do 16 (destruct u as [|? u]; [discriminate|]).
  destruct u; [reflexivity | discriminate].
Qed.

Lemma UUID_String_inj (u u' : UUID) :
  length u = 16%nat -> length u' = 16%nat ->
  UUID_String u = UUID_String u' -> u = u'.
Proof.
  intros Hu Hu' E. rewrite <- (UUID_bytes_String u Hu), <- (UUID_bytes_String u' Hu').
  rewrite E. reflexivity.
Qed.

(** ** What a history can and cannot put in the map *)

Section WithParser.
Variable ParseLogLevel : list byte -> LevelType.
Variable NewSequence : string -> Time -> Time -> Sequence + error.

Local Abbreviation step := (step ParseLogLevel NewSequence).
Local Abbreviation run := (run ParseLogLevel NewSequence).
Local Abbreviation allowed_trace := (allowed_trace ParseLogLevel NewSequence).

Lemma Search_world (w : World) (u : UUID) (now : Time) (dir : string)
    (begin end_ : Time) (level text token : string) :
  snd (Search NewSequence w u now dir begin end_ level text token) = w
  \/ (token = ""
      /\ exists p i,
           snd (Search NewSequence w u now dir begin end_ level text token)
           = {| srv := srv w; heap := <[p := i]> (heap w);
                goroutines := goroutines w ++ [(UUID_String u, p)] |}).
Proof.
  unfold Search. destruct (String.eqb_spec token "") as [->|Hne].
  - destruct (NewSequence dir begin end_) as [q|err]; [|left; reflexivity].
    right. split; [reflexivity|]. eexists. eexists. reflexivity.
  - left. destruct (GetIter w token); reflexivity.
Qed.

Lemma after_call_frame {R} (f : IterWithAccessTime -> R * IterWithAccessTime)
    (w : World) (p : ptr) :
  srv (after_call f w p) = srv w
  /\ goroutines (after_call f w p) = goroutines w.
Proof.
  unfold after_call, call. destruct (heap w !! p) as [i|]; [|auto].
  destruct (f i). auto.
Qed.

Lemma Gc_iteration_world (w : World) (token : string) (p : ptr) (now : Time) :
  (m (srv (fst (Gc_iteration w token p now))) = m (srv w)
   \/ m (srv (fst (Gc_iteration w token p now))) = delete token (m (srv w)))
  /\ goroutines (fst (Gc_iteration w token p now)) = goroutines w.
Proof.
  destruct (heap w !! p) as [i|] eqn:E.
  - destruct (SearchFacts.Gc_iteration_cases w token p i now E) as [[_ ->] | [_ ->]];
      cbn [fst]; auto.
  - unfold Gc_iteration. rewrite E. auto.
Qed.

(** Every token held by the map or by a started watcher renders a UUID that was generated. *)
Lemma tokens_are_generated_step (sys : System) (ev : event) :
  (forall token p,
     m (srv (world sys)) !! token = Some p \/ In (token, p) (goroutines (world sys)) ->
     exists u, In u (generated sys) /\ length u = 16%nat /\ token = UUID_String u) ->
  allowed sys ev ->
  forall token p,
    m (srv (world (step sys ev))) !! token = Some p
    \/ In (token, p) (goroutines (world (step sys ev))) ->
    exists u, In u (generated (step sys ev)) /\ length u = 16%nat
              /\ token = UUID_String u.
Proof.
  intros Hinv Hal token p.
  destruct ev as [u now dir b e level text tk | q now | q | tk q | tk q now];
    cbn [Sessions.step world generated allowed] in *.
  - destruct (Search_world (world sys) u now dir b e level text tk)
      as [-> | (-> & p0 & i & ->)].
    + intros H. destruct (Hinv _ _ H) as (u' & Hin & Hl & Ht).
      exists u'. split; [|auto]. destruct (String.eqb tk ""); [right|]; exact Hin.
    + cbn [srv goroutines String.eqb]. destruct (Hal eq_refl) as [Hlen _].
      intros [H|H].
      * destruct (Hinv _ _ (or_introl H)) as (u' & Hin & Hl & Ht).
        exists u'. split; [right; exact Hin | auto].
      * apply in_app_or in H as [H|[H|[]]].
        -- destruct (Hinv _ _ (or_intror H)) as (u' & Hin & Hl & Ht).
           exists u'. split; [right; exact Hin | auto].
        -- injection H as <- _. exists u. split; [left; reflexivity | auto].
  - destruct (after_call_frame (fun i => Next ParseLogLevel i now) (world sys) q)
      as [-> ->]. apply Hinv.
  - destruct (after_call_frame Close (world sys) q) as [-> ->]. apply Hinv.
  - cbn [SetIter srv m goroutines]. intros [H|H].
    + rewrite lookup_insert in H. destruct (decide (tk = token)) as [<-|Hne].
      * apply (Hinv tk q). right. exact Hal.
      * apply (Hinv token p). left. exact H.
    + apply (Hinv token p). right. exact H.
  - destruct (Gc_iteration_world (world sys) tk q now) as [[Hm|Hm] Hg];
      rewrite Hm, Hg; intros [H|H].
    + apply (Hinv token p); auto.
    + apply (Hinv token p); auto.
    + apply lookup_delete_Some in H as [_ H]. apply (Hinv token p); auto.
    + apply (Hinv token p); auto.
Qed.

Lemma tokens_are_generated (evs : list event) :
  forall sys,
    (forall token p,
       m (srv (world sys)) !! token = Some p \/ In (token, p) (goroutines (world sys)) ->
       exists u, In u (generated sys) /\ length u = 16%nat /\ token = UUID_String u) ->
    allowed_trace sys evs ->
    forall token p,
      m (srv (world (run sys evs))) !! token = Some p
      \/ In (token, p) (goroutines (world (run sys evs))) ->
      exists u, In u (generated (run sys evs)) /\ length u = 16%nat
                /\ token = UUID_String u.
Proof.
  induction evs as [|ev evs IH]; intros sys Hinv Hal; [exact Hinv|].
  destruct Hal as [Hev Hrest]. cbn [Sessions.run].
  apply IH; [|exact Hrest]. apply tokens_are_generated_step; assumption.
Qed.

(** A UUID that was generated and whose token nobody holds: nobody will hold it. *)
Lemma token_stays_free_step (u : UUID) (sys : System) (ev : event) :
  length u = 16%nat ->
  In u (generated sys) ->
  m (srv (world sys)) !! UUID_String u = None ->
  (forall p, ~ In (UUID_String u, p) (goroutines (world sys))) ->
  allowed sys ev ->
  In u (generated (step sys ev))
  /\ m (srv (world (step sys ev))) !! UUID_String u = None
  /\ (forall p, ~ In (UUID_String u, p) (goroutines (world (step sys ev)))).
Proof.
  intros Hlen Hgen Hm Hg Hal.
  destruct ev as [u' now dir b e level text tk | q now | q | tk q | tk q now];
    cbn [Sessions.step world generated allowed] in *.
  - split; [destruct (String.eqb tk ""); [right|]; exact Hgen|].
    destruct (Search_world (world sys) u' now dir b e level text tk)
      as [-> | (-> & p0 & i & ->)]; [auto|].
    cbn [srv goroutines]. split; [exact Hm|].
    intros p H. apply in_app_or in H as [H|[H|[]]]; [exact (Hg p H)|].
    injection H as E _. destruct (Hal eq_refl) as [Hlen' Hfresh].
    apply Hfresh. rewrite (UUID_String_inj u' u Hlen' Hlen E). exact Hgen.
  - destruct (after_call_frame (fun i => Next ParseLogLevel i now) (world sys) q)
      as [-> ->]. auto.
  - destruct (after_call_frame Close (world sys) q) as [-> ->]. auto.
  - cbn [SetIter srv m goroutines]. split; [exact Hgen|]. split; [|exact Hg].
    rewrite lookup_insert_ne; [exact Hm|]. intros ->. exact (Hg q Hal).
  - destruct (Gc_iteration_world (world sys) tk q now) as [[Hm'|Hm'] Hg'];
      rewrite Hm', Hg'; (split; [exact Hgen|]); (split; [|exact Hg]).
    + exact Hm.
    + apply lookup_delete_None. right. exact Hm.
Qed.

Lemma token_stays_free (u : UUID) (evs : list event) :
  length u = 16%nat ->
  forall sys,
    In u (generated sys) ->
    m (srv (world sys)) !! UUID_String u = None ->
    (forall p, ~ In (UUID_String u, p) (goroutines (world sys))) ->
    allowed_trace sys evs ->
    m (srv (world (run sys evs))) !! UUID_String u = None.
Proof.
  intros Hlen. induction evs as [|ev evs IH]; intros sys Hgen Hm Hg Hal; [exact Hm|].
  destruct Hal as [Hev Hrest]. cbn [Sessions.run].
  destruct (token_stays_free_step u sys ev Hlen Hgen Hm Hg Hev) as (H1 & H2 & H3).
  apply IH; assumption.
Qed.

(** C10: a searcher is taken through any history of calls and watcher
    steps; then Search is called with an empty token, [uuid.New] gives a
    UUID it has not given before, and [NewSequence] fails. Search returns
    no iterator, the rendered UUID, which is not empty, and the error of
    [NewSequence]; the map, the iterators and the watchers are as they
    were. However the history goes on from there, a Search presenting
    that token finds no session and fails with "target not found". *)
Theorem Search_failure_token_stays_unknown (before after : list event) (u : UUID)
    (now : Time) (dir : string) (begin end_ : Time) (level text : string)
    (err : error) :
  allowed_trace initial before ->
  length u = 16%nat ->
  ~ In u (generated (run initial before)) ->
  NewSequence dir begin end_ = inr err ->
  let sys := run initial before in
  let failed := step sys (CallSearch u now dir begin end_ level text "") in
  Search NewSequence (world sys) u now dir begin end_ level text ""
    = ((None, UUID_String u, Some err), world sys)
  /\ UUID_String u <> ""
  /\ world failed = world sys
  /\ (allowed_trace failed after ->
      forall u' now' dir' begin' end' level' text',
        Search NewSequence (world (run failed after)) u' now' dir' begin' end'
               level' text' (UUID_String u)
        = ((None, UUID_String u, Some (errors_New "target not found")),
           world (run failed after))).
Proof.
  intros Hbefore Hlen Hfresh Hseq sys failed.
  assert (Hcall : Search NewSequence (world sys) u now dir begin end_ level text ""
                  = ((None, UUID_String u, Some err), world sys)).
  { unfold Search. simpl. rewrite Hseq. reflexivity. }
  assert (Hworld : world failed = world sys).
  { unfold failed. cbn [Sessions.step world]. rewrite Hcall. reflexivity. }
  split; [exact Hcall|]. split; [apply SearchFacts.UUID_String_nonempty|].
  split; [exact Hworld|].
  intros Hafter u' now' dir' begin' end' level' text'.
  assert (Hheld : forall token p,
             m (srv (world sys)) !! token = Some p
             \/ In (token, p) (goroutines (world sys)) ->
             exists v, In v (generated sys) /\ length v = 16%nat
                       /\ token = UUID_String v).
  { apply tokens_are_generated; [|exact Hbefore].
    cbn. intros token p [H|[]]. rewrite lookup_empty in H. discriminate. }
  assert (Hm : m (srv (world failed)) !! UUID_String u = None).
  { rewrite Hworld. destruct (m (srv (world sys)) !! UUID_String u) as [p|] eqn:E;
      [|reflexivity].
    destruct (Hheld _ _ (or_introl E)) as (v & Hv & Hlv & Hs).
    exfalso. apply Hfresh. rewrite (UUID_String_inj u v Hlen Hlv Hs). exact Hv. }
  assert (Hg : forall p, ~ In (UUID_String u, p) (goroutines (world failed))).
  { rewrite Hworld. intros p H.
    destruct (Hheld _ _ (or_intror H)) as (v & Hv & Hlv & Hs).
    apply Hfresh. rewrite (UUID_String_inj u v Hlen Hlv Hs). exact Hv. }
  assert (Hgen : In u (generated failed)) by (left; reflexivity).
  pose proof (token_stays_free u after Hlen failed Hgen Hm Hg Hafter) as Hlater.
  unfold Search.
  destruct (String.eqb_spec (UUID_String u) "") as [E|_];
    [exfalso; exact (SearchFacts.UUID_String_nonempty u E)|].
  unfold GetIter. rewrite Hlater. reflexivity.
Qed.

End WithParser.

Lemma Search_failure_token_stays_unknown_witness :
  allowed_trace Cluster.ParseLogLevel var_log_NewSequence initial history_before
  /\ length sample_uuid = 16%nat
  /\ ~ In sample_uuid
         (generated (run Cluster.ParseLogLevel var_log_NewSequence initial history_before))
  /\ var_log_NewSequence "/missing" 0 0
     = inr (errors_New "open: no such file or directory")
  /\ allowed_trace Cluster.ParseLogLevel var_log_NewSequence
       (step Cluster.ParseLogLevel var_log_NewSequence
          (run Cluster.ParseLogLevel var_log_NewSequence initial history_before)
          (CallSearch sample_uuid 15 "/missing" 0 0 "" "" ""))
       history_after
  /\ Search var_log_NewSequence
       (world (run Cluster.ParseLogLevel var_log_NewSequence
                 (step Cluster.ParseLogLevel var_log_NewSequence
                    (run Cluster.ParseLogLevel var_log_NewSequence initial history_before)
                    (CallSearch sample_uuid 15 "/missing" 0 0 "" "" ""))
                 history_after))
       uuid_a 50 "/var/log" 0 0 "" "" (UUID_String sample_uuid)
     = ((None, UUID_String sample_uuid, Some (errors_New "target not found")),
        world (run Cluster.ParseLogLevel var_log_NewSequence
                 (step Cluster.ParseLogLevel var_log_NewSequence
                    (run Cluster.ParseLogLevel var_log_NewSequence initial history_before)
                    (CallSearch sample_uuid 15 "/missing" 0 0 "" "" ""))
                 history_after)).
Proof.
  assert (H1 : allowed_trace Cluster.ParseLogLevel var_log_NewSequence initial
                 history_before).
  { vm_compute. repeat split; auto. }
  assert (H2 : length sample_uuid = 16%nat) by reflexivity.
  assert (H3 : ~ In sample_uuid
                 (generated (run Cluster.ParseLogLevel var_log_NewSequence initial
                               history_before))).
  { vm_compute. intros [H|[]]. discriminate H. }
  assert (H4 : var_log_NewSequence "/missing" 0 0
               = inr (errors_New "open: no such file or directory")) by reflexivity.
  assert (H5 : allowed_trace Cluster.ParseLogLevel var_log_NewSequence
       (step Cluster.ParseLogLevel var_log_NewSequence
          (run Cluster.ParseLogLevel var_log_NewSequence initial history_before)
          (CallSearch sample_uuid 15 "/missing" 0 0 "" "" ""))
       history_after).
  { vm_compute. repeat split; auto.
    - intros [H|[H|[]]]; discriminate H. }
  repeat (split; [assumption|]).
  exact (proj2 (proj2 (proj2
    (Search_failure_token_stays_unknown Cluster.ParseLogLevel var_log_NewSequence
       history_before history_after sample_uuid 15 "/missing" 0 0 "" ""
       (errors_New "open: no such file or directory") H1 H2 H3 H4))) H5
    uuid_a 50 "/var/log" 0 0 "" "").
Defined.

End SessionFacts.

(** * Properties of the cluster readers *)

Module ClusterFacts.
Import Cluster.

(** ** Member selection *)

Lemma mem_head (v : string) (vs : list string) : mem v (v :: vs) = true.
Proof. unfold mem. simpl. rewrite String.eqb_refl. reflexivity. Qed.

Lemma admits_nothing (a : Admissible) :
  (forall v, admits a v = false) -> a = Only [].
Proof.
  intros H. destruct a as [|[|v vs]].
  - specialize (H ""). discriminate.
  - reflexivity.
  - specialize (H v). change (mem v (v :: vs) = false) in H.
    rewrite mem_head in H. discriminate.
Qed.

Lemma mem_filter (v : string) (f : string -> bool) (xs : list string) :
  mem v (List.filter f xs) = mem v xs && f v.
Proof.
  unfold mem. induction xs as [|x xs IH]; simpl; [reflexivity|].
  destruct (f x) eqn:F; simpl; rewrite IH;
    destruct (String.eqb_spec v x) as [->|Hne]; simpl;
    rewrite ?F, ?andb_false_r; reflexivity.
Qed.

Lemma admits_inter (a b : Admissible) (v : string) :
  admits (adm_inter a b) v = admits a v && admits b v.
Proof.
  destruct a as [|xs], b as [|ys]; simpl;
    rewrite ?andb_true_r; try reflexivity.
  apply mem_filter.
Qed.

Lemma admits_union (a b : Admissible) (v : string) :
  admits (adm_union a b) v = admits a v || admits b v.
Proof.
  destruct a as [|xs], b as [|ys]; simpl;
    rewrite ?orb_true_r; try reflexivity.
  unfold mem. apply existsb_app.
Qed.

(** The admissible sets never leave out a value the predicate accepts. *)
Lemma admissible_sound (c : Column) (p : Predicate) (type_ address_ : string) :
  eval p type_ address_ = true ->
  admits (admissible c p) (column_value c type_ address_) = true.
Proof.
  induction p as [|a|p IHp q IHq|p IHp q IHq|p IHp]; simpl; intros H.
  - reflexivity.
  - destruct c, a; cbn [adm_atom admits eval_atom column_value] in *;
      try reflexivity; try exact H;
      apply String.eqb_eq in H; subst; apply mem_head.
  - apply andb_prop in H as [Hp Hq]. rewrite admits_inter, IHp, IHq; auto.
  - rewrite admits_union. apply orb_prop in H as [H|H].
    + rewrite IHp; auto.
    + rewrite IHq; auto. apply orb_true_r.
  - reflexivity.
Qed.

Lemma admits_not_empty (a : Admissible) (v : string) :
  admits a v = true -> provably_empty a = false.
Proof. destruct a as [|[|x xs]]; simpl; intros H; try reflexivity. discriminate. Qed.

(** Pruning is safe: a member whose row the predicate accepts is
    selected. *)
Lemma select_sound (p : Predicate) (members : list Member) (mb : Member) :
  In mb members ->
  eval p (typ mb) (address mb) = true ->
  In mb (select p members).
Proof.
  intros Hin He. unfold select.
  pose proof (admissible_sound ColType p _ _ He) as Ht.
  pose proof (admissible_sound ColAddress p _ _ He) as Ha.
  simpl in Ht, Ha.
  rewrite (admits_not_empty _ _ Ht), (admits_not_empty _ _ Ha). simpl.
  apply List.filter_In. rewrite Ht, Ha. auto.
Qed.

Lemma fetch_requests (fetcher : Member -> Payload + error) (selected : list Member) :
  requests (fetch fetcher selected) = selected.
Proof.
  induction selected as [|mb rest IH]; simpl; [reflexivity|].
  destruct (match fetcher mb with inr err => inr err | inl payload => flatten None payload end);
    simpl; rewrite IH; reflexivity.
Qed.

(** One network call goes to each selected member and to nobody else. *)
Lemma cluster_config_requests (fetcher : Member -> Payload + error)
    (p : Predicate) (members : list Member) :
  requests (cluster_config fetcher p members) = select p members.
Proof. unfold cluster_config. simpl. apply fetch_requests. Qed.

(** A predicate with no admissible type accepts no row at all. *)
Lemma unsatisfiable_type_rejects (p : Predicate) (type_ address_ : string) :
  (forall v, admits (admissible ColType p) v = false) ->
  eval p type_ address_ = false.
Proof.
  intros H. destruct (eval p type_ address_) eqn:E; [|reflexivity].
  apply (admissible_sound ColType) in E. simpl in E. rewrite H in E. discriminate.
Qed.

(** C7: when no value of the [type] column is admissible, as with
    type='pd' AND type='tikv', nobody is selected, no network call is
    issued, and the query returns no row (and no warning). *)
Theorem unsatisfiable_type_no_request (fetcher : Member -> Payload + error)
    (p : Predicate) (members : list Member) :
  (forall v, admits (admissible ColType p) v = false) ->
  select p members = []
  /\ requests (cluster_config fetcher p members) = []
  /\ requestCounter (cluster_config fetcher p members) = 0%nat
  /\ rows (cluster_config fetcher p members) = []
  /\ warnings (cluster_config fetcher p members) = [].
Proof.
  intros H. apply admits_nothing in H.
  assert (Hs : select p members = []) by (unfold select; rewrite H; reflexivity).
  unfold requestCounter, cluster_config. rewrite Hs. simpl. auto.
Qed.

(** The expectations of [TestTiDBClusterConfig] hold of the model. *)
Lemma TestTiDBClusterConfig_passes : Forall case_passes cases.
Proof. repeat constructor. Qed.

(** C2 as stated fails: on the cluster of the test the query
    [type='pd' or address=<server 0>] issues 9 calls, not 3, and returns
    15 rows, not 5. *)
Lemma pd_or_address_not_three_calls :
  requestCounter (run testServers (pd_or_address (server 0))) = 9%nat
  /\ requestCounter (run testServers (pd_or_address (server 0))) <> 3%nat
  /\ length (rows (run testServers (pd_or_address (server 0)))) = 15%nat
  /\ length (rows (run testServers (pd_or_address (server 0)))) <> 5%nat.
Proof. repeat split; try reflexivity; discriminate. Qed.

Lemma select_pd_or_address (a0 : string) (ms : list Member) :
  select (pd_or_address a0) ms = ms.
Proof.
  unfold select.
  cbn [pd_or_address admissible adm_atom adm_union provably_empty orb admits andb].
  induction ms as [|mb ms IH]; simpl; [reflexivity|]. f_equal. exact IH.
Qed.

Lemma fetch_mockConfig (ms : list Member) :
  fetch (fun _ => inl mockConfig) ms
  = mkOutcome (flat_map (fun mb => config_rows (typ mb) (address mb)) ms) [] ms.
Proof.
  induction ms as [|mb ms IH]; [reflexivity|].
  cbn [fetch]. rewrite IH. reflexivity.
Qed.

Lemma keep_row (a0 typ addr key value : string) :
  eval (pd_or_address a0) (row_type (mkConfigRow typ addr key value))
       (row_address (mkConfigRow typ addr key value))
  = (String.eqb typ "pd" || String.eqb addr a0).
Proof. reflexivity. Qed.

Lemma filter_config_rows (a0 typ addr : string) :
  List.filter (fun r => eval (pd_or_address a0) (row_type r) (row_address r))
              (config_rows typ addr)
  = if String.eqb typ "pd" || String.eqb addr a0 then config_rows typ addr else [].
Proof.
  unfold config_rows. cbn [List.filter]. rewrite !keep_row.
  destruct (String.eqb typ "pd" || String.eqb addr a0); reflexivity.
Qed.

Lemma filter_flat_map {A B} (f : B -> bool) (g : A -> list B) (l : list A) :
  List.filter f (flat_map g l) = flat_map (fun x => List.filter f (g x)) l.
Proof.
  induction l as [|x l IH]; simpl; [reflexivity|].
  rewrite List.filter_app, IH. reflexivity.
Qed.

(** The query on any list of test servers: everybody is asked, and the
    rows of the pd members and of the members at [a0] come back. *)
Lemma run_pd_or_address (a0 : string) (ts : list string) :
  run ts (pd_or_address a0)
  = mkOutcome
      (flat_map (fun mb => if String.eqb (typ mb) "pd" || String.eqb (address mb) a0
                           then config_rows (typ mb) (address mb) else [])
                (servers ts))
      [] (servers ts).
Proof.
  unfold run, cluster_config.
  rewrite select_pd_or_address, fetch_mockConfig.
  cbn [rows warnings requests]. rewrite filter_flat_map.
  f_equal. apply flat_map_ext. intros mb. apply filter_config_rows.
Qed.

(** C2, as the test has it: with every type on each of three test servers
    the query [type='pd' or address=<server 0>] contacts all nine members
    (9 network calls) and returns the 15 rows of five members: server 0
    under tidb and tikv, and the three pd members. *)
Theorem pd_or_address_contacts_everyone (a0 a1 a2 : string) :
  a1 <> a0 -> a2 <> a0 ->
  let o := run [a0; a1; a2] (pd_or_address a0) in
  requests o = servers [a0; a1; a2]
  /\ requestCounter o = 9%nat
  /\ rows o = concat [config_rows "tidb" a0; config_rows "tikv" a0;
                      config_rows "pd" a0; config_rows "pd" a1;
                      config_rows "pd" a2]
  /\ length (rows o) = 15%nat
  /\ warnings o = [].
Proof.
  intros H1 H2 o.
  apply String.eqb_neq in H1, H2.
  assert (Ho : o = mkOutcome
            (concat [config_rows "tidb" a0; config_rows "tikv" a0;
                     config_rows "pd" a0; config_rows "pd" a1;
                     config_rows "pd" a2]) [] (servers [a0; a1; a2])).
  { unfold o. rewrite run_pd_or_address. f_equal.
    unfold servers. cbn [flat_map map app typ address].
    rewrite (String.eqb_refl a0), H1, H2. reflexivity. }
  rewrite Ho. repeat split; reflexivity.
Qed.

(** ** Flattening *)

Lemma append_assoc (a b c : string) :
  ((a ++ b) ++ c = a ++ (b ++ c))%string.
Proof.
  induction a as [|x a IH]; [reflexivity|].
  change (String x ((a ++ b) ++ c) = String x (a ++ (b ++ c)))%string.
  f_equal. exact IH.
Qed.

Lemma strings_Join_snoc (sep x k : string) (path : list string) :
  strings_Join ((x :: path) ++ [k]) sep
  = (strings_Join (x :: path) sep ++ sep ++ k)%string.
Proof.
  revert x. induction path as [|y path IH]; intros x; [reflexivity|].
  change (strings_Join ((x :: y :: path) ++ [k]) sep)
    with (x ++ sep ++ strings_Join ((y :: path) ++ [k]) sep)%string.
  rewrite IH.
  change (strings_Join (x :: y :: path) sep)
    with (x ++ sep ++ strings_Join (y :: path) sep)%string.
  rewrite !append_assoc. reflexivity.
Qed.

Lemma own_key_prefix_of (path : list string) :
  own_key (prefix_of path) = strings_Join path ".".
Proof. destruct path; reflexivity. Qed.

Lemma child_key_prefix_of (path : list string) (k : string) :
  Some (child_key (prefix_of path) k) = prefix_of (path ++ [k]).
Proof.
  destruct path as [|x path]; [reflexivity|].
  change (prefix_of ((x :: path) ++ [k]))
    with (Some (strings_Join ((x :: path) ++ [k]) ".")).
  rewrite strings_Join_snoc. reflexivity.
Qed.

Lemma flatten_leaves (p : Payload) :
  forall path, well_formed p = true ->
    flatten (prefix_of path) p = inl (map dotted (leaves path p)).
Proof.
  induction p using Payload_mut with
    (P0 := fun kvs => forall path, well_formed_fields kvs = true ->
       flatten_fields (prefix_of path) kvs = inl (map dotted (leaves_fields path kvs)));
    intros path Hwf.
  - simpl. rewrite own_key_prefix_of. reflexivity.
  - simpl. apply IHp. exact Hwf.
  - discriminate.
  - reflexivity.
  - simpl in Hwf. apply andb_prop in Hwf as [Hv Hrest].
    cbn [flatten_fields leaves_fields].
    rewrite child_key_prefix_of, (IHp _ Hv), (IHp0 _ Hrest), map_app.
    reflexivity.
Qed.

Lemma leaves_count (p : Payload) :
  forall path, length (leaves path p) = count_scalars p.
Proof.
  induction p using Payload_mut with
    (P0 := fun kvs => forall path,
       length (leaves_fields path kvs) = count_scalars_fields kvs);
    intros path; simpl; auto.
  rewrite length_app, IHp, IHp0. reflexivity.
Qed.

Lemma flatten_error (p : Payload) :
  forall prefix e, flatten prefix p = inr e -> e = MalformedPayload.
Proof.
  induction p using Payload_mut with
    (P0 := fun kvs => forall prefix e,
       flatten_fields prefix kvs = inr e -> e = MalformedPayload);
    intros prefix e H; simpl in H; try discriminate; eauto.
  - inversion H. reflexivity.
  - destruct (flatten (Some (child_key prefix k)) p) eqn:F.
    + destruct (flatten_fields prefix rest) eqn:G; [discriminate|].
      inversion H; subst. eauto.
    + inversion H; subst. eauto.
Qed.

Lemma flatten_malformed (p : Payload) :
  forall prefix, well_formed p = false -> flatten prefix p = inr MalformedPayload.
Proof.
  induction p using Payload_mut with
    (P0 := fun kvs => forall prefix, well_formed_fields kvs = false ->
       flatten_fields prefix kvs = inr MalformedPayload);
    intros prefix Hwf; simpl in *; auto; try discriminate.
  destruct (well_formed p) eqn:Wp.
  - simpl in Hwf. rewrite (IHp0 _ Hwf).
    destruct (flatten (Some (child_key prefix k)) p) eqn:F; [reflexivity|].
    f_equal. exact (flatten_error _ _ _ F).
  - rewrite IHp by reflexivity. reflexivity.
Qed.

(** C9: flattening a payload made of scalars and mappings gives one row
    per leaf scalar, in depth-first order, keyed by the mapping keys on the
    way to the leaf joined by "."; the payload of the test gives exactly
    (key1, value1), (key2.nest1, n-value1), (key2.nest2, n-value2).  The
    flattener is a function of the payload and has nothing to mutate. *)
Theorem flatten_one_row_per_leaf (p : Payload) :
  well_formed p = true ->
  (exists kvs,
     flatten None p = inl kvs
     /\ kvs = map dotted (leaves [] p)
     /\ length kvs = count_scalars p)
  /\ flatten None mockConfig
     = inl [("key1", "value1"); ("key2.nest1", "n-value1");
            ("key2.nest2", "n-value2")].
Proof.
  intros Hwf. split; [|reflexivity].
  exists (map dotted (leaves [] p)). split; [|split].
  - exact (flatten_leaves p [] Hwf).
  - reflexivity.
  - rewrite length_map. apply leaves_count.
Qed.

(** ** Cluster logs *)


Section Merge.
Context {A : Type} (time : A -> Time).













End Merge.








(** The expected rows of [TestTiDBClusterLog] hold of the model: all log
    items, and the items at level critical. *)
Lemma TestTiDBClusterLog_all_items :
  cluster_log (fun _ => true) log_servers = fullLogs.
Proof. vm_compute. reflexivity. Qed.

Lemma TestTiDBClusterLog_level_critical :
  cluster_log
    (fun it => bool_decide
       (GetLevel it = ParseLogLevel (list_byte_of_string "critical")))
    log_servers = criticalLogs.
Proof. vm_compute. reflexivity. Qed.

(** ** The theorems at the set-up of the tests *)

Lemma unsatisfiable_type_no_request_witness :
  (forall v,
     admits (admissible ColType (PAnd (PAtom (TypeEq "pd")) (PAtom (TypeEq "tikv")))) v
       = false)
  /\ requestCounter
       (run testServers (PAnd (PAtom (TypeEq "pd")) (PAtom (TypeEq "tikv")))) = 0%nat
  /\ rows (run testServers (PAnd (PAtom (TypeEq "pd")) (PAtom (TypeEq "tikv")))) = [].
Proof.
  split; [intros v; reflexivity|].
  pose proof (unsatisfiable_type_no_request (fun _ => inl mockConfig)
                (PAnd (PAtom (TypeEq "pd")) (PAtom (TypeEq "tikv")))
                (servers testServers) (fun v => eq_refl)) as H.
  split; [exact (proj1 (proj2 (proj2 H))) | exact (proj1 (proj2 (proj2 (proj2 H))))].
Defined.

Lemma pd_or_address_contacts_everyone_witness :
  "127.0.0.1:10081" <> "127.0.0.1:10080"
  /\ "127.0.0.1:10082" <> "127.0.0.1:10080"
  /\ requestCounter (run testServers (pd_or_address "127.0.0.1:10080")) = 9%nat
  /\ length (rows (run testServers (pd_or_address "127.0.0.1:10080"))) = 15%nat.
Proof.
  assert (H1 : "127.0.0.1:10081" <> "127.0.0.1:10080") by discriminate.
  assert (H2 : "127.0.0.1:10082" <> "127.0.0.1:10080") by discriminate.
  split; [exact H1|]. split; [exact H2|].
  pose proof (pd_or_address_contacts_everyone
                "127.0.0.1:10080" "127.0.0.1:10081" "127.0.0.1:10082" H1 H2) as H.
  split; [exact (proj1 (proj2 H)) | exact (proj1 (proj2 (proj2 (proj2 H))))].
Defined.

Lemma flatten_one_row_per_leaf_witness :
  well_formed mockConfig = true
  /\ exists kvs,
       flatten None mockConfig = inl kvs
       /\ kvs = map dotted (leaves [] mockConfig)
       /\ length kvs = count_scalars mockConfig.
Proof.
  split; [reflexivity|].
  exact (proj1 (flatten_one_row_per_leaf mockConfig eq_refl)).
Defined.


End ClusterFacts.

(** * Further properties of search.go *)

Module SearchExtra.
Import Search SearchSamples.

(** ** [Close] *)

(** [Close] hands out the result of closing the sequence once; a second
    [Close] returns nil and changes nothing, and the access time is never
    touched. *)
Theorem Close_twice (i : IterWithAccessTime) :
  fst (Close i) = match iter i with
                  | Some q => Sequence_Close q
                  | None => None
                  end
  /\ Close (snd (Close i)) = (None, snd (Close i))
  /\ access (snd (Close i)) = access i.
Proof. unfold Close. destruct (iter i) as [q|] eqn:E; simpl; rewrite ?E; auto. Qed.

(** ** The token map *)

(** Lookup after [SetIter] and after [DelIter]: the token written reads
    back the iterator, the token deleted reads back nil, every other token
    reads as before, and neither touches an iterator or a goroutine. *)
Theorem GetIter_after_update (w : World) (token token' : string) (p : ptr) :
  GetIter (SetIter w token p) token'
    = (if decide (token = token') then Some p else GetIter w token')
  /\ GetIter (DelIter w token) token'
     = (if decide (token = token') then None else GetIter w token')
  /\ heap (SetIter w token p) = heap w
  /\ heap (DelIter w token) = heap w
  /\ goroutines (SetIter w token p) = goroutines w
  /\ goroutines (DelIter w token) = goroutines w.
Proof.
  unfold GetIter, SetIter, DelIter. simpl.
  rewrite lookup_insert, lookup_delete. auto 10.
Qed.

(** ** Creating a session *)

Section WithSequences.

Variable ParseLogLevel : list byte -> LevelType.
Variable NewSequence : string -> Time -> Time -> Sequence + error.

(** With an empty token and a sequence that opens, [Search] returns no
    error, the rendered UUID as token, and a newly allocated iterator: open,
    last used now, filtering on [text] and [level].  The iterators already
    there and the token map are untouched, and exactly one goroutine, the
    watcher of the new session, is started. *)
Theorem Search_creates_session (w : World) (u : UUID) (now : Time)
    (dir : string) (begin end_ : Time) (level text : string) (q : Sequence) :
  NewSequence dir begin end_ = inl q ->
  exists p w',
    Search NewSequence w u now dir begin end_ level text ""
      = ((Some p, UUID_String u, None), w')
    /\ heap w !! p = None
    /\ heap w' !! p
       = Some {| iter := Some q; access := now;
                 search := list_byte_of_string text; level := level |}
    /\ (forall p', p' <> p -> heap w' !! p' = heap w !! p')
    /\ srv w' = srv w
    /\ goroutines w' = goroutines w ++ [(UUID_String u, p)].
Proof.
  intros Hseq. unfold Search. simpl. rewrite Hseq.
  eexists. eexists. split; [reflexivity|]. simpl.
  split; [apply not_elem_of_dom, is_fresh|].
  split; [apply lookup_insert_eq|].
  split; [intros p' Hp'; apply lookup_insert_ne; congruence|].
  split; reflexivity.
Qed.

(** The new session is registered by its watcher, not by [Search]: until
    the goroutine has run its [SetIter], presenting the token just returned
    gives "target not found"; once it has, the same token gives the
    iterator that [Search] returned. *)
Theorem Search_token_needs_watcher (w : World) (u : UUID) (now : Time)
    (dir : string) (begin end_ : Time) (level text : string) (q : Sequence) :
  NewSequence dir begin end_ = inl q ->
  GetIter w (UUID_String u) = None ->
  exists p w',
    Search NewSequence w u now dir begin end_ level text ""
      = ((Some p, UUID_String u, None), w')
    /\ (forall u' now' dir' begin' end' level' text',
          Search NewSequence w' u' now' dir' begin' end' level' text' (UUID_String u)
            = ((None, UUID_String u, Some (errors_New "target not found")), w'))
    /\ (forall u' now' dir' begin' end' level' text',
          Search NewSequence (fst (Gc w' (UUID_String u) p [])) u' now' dir'
                 begin' end' level' text' (UUID_String u)
            = ((Some p, UUID_String u, None), fst (Gc w' (UUID_String u) p []))).
Proof.
  intros Hseq Hfresh.
  assert (Hne : String.eqb (UUID_String u) "" = false).
  { apply String.eqb_neq, SearchFacts.UUID_String_nonempty. }
  unfold Search at 1. simpl. rewrite Hseq.
  eexists. eexists. split; [reflexivity|]. split.
  - intros. unfold Search. rewrite Hne. unfold GetIter in *. simpl.
    rewrite Hfresh. reflexivity.
  - intros. unfold Search. rewrite Hne. unfold Gc, GetIter. simpl.
    rewrite lookup_insert_eq. reflexivity.
Qed.

(** ** [Next] on an open iterator *)

Lemma Next_loop_skips (i : IterWithAccessTime) (c : option error)
    (skipped : list Item) (p : list (Item + error)) :
  Forall (fun x => keeps ParseLogLevel i x = false) skipped ->
  Next_loop ParseLogLevel i c (map inl skipped ++ p) = Next_loop ParseLogLevel i c p.
Proof.
  induction 1 as [|x l Hx Hl IH]; simpl; [reflexivity | rewrite Hx; exact IH].
Qed.

(** The items failing a test that precede the first kept item are
    consumed with it: [Next] returns that item, leaves the rest of the
    sequence pending and the iterator open, and sets the access time. *)
Theorem Next_yields_first_kept (i : IterWithAccessTime) (c : option error)
    (skipped : list Item) (it : Item) (rest : list (Item + error)) (now : Time) :
  iter i = Some (mkSequence (map inl skipped ++ inl it :: rest) c) ->
  Forall (fun x => keeps ParseLogLevel i x = false) skipped ->
  keeps ParseLogLevel i it = true ->
  Next ParseLogLevel i now
    = (inl it, {| iter := Some (mkSequence rest c); access := now;
                  search := search i; level := level i |}).
Proof.
  intros Hi Hskip Hit. unfold Next. simpl. rewrite Hi. simpl.
  rewrite (SearchFacts.Next_loop_ext ParseLogLevel _ i) by reflexivity.
  assert (E : Next_loop ParseLogLevel i c (map inl skipped ++ inl it :: rest)
              = (inl it, mkSequence rest c)).
  { rewrite (Next_loop_skips i c skipped _ Hskip). simpl. rewrite Hit.
    reflexivity. }
  rewrite E. reflexivity.
Qed.

(** A read error of the sequence, and [io.EOF] at its end, come back from
    [Next] as they are; the items skipped on the way are consumed, the
    iterator stays open, and at the end every further [Next] gives
    [io.EOF] again. *)
Theorem Next_passes_errors (i : IterWithAccessTime) (c : option error)
    (skipped : list Item) (now : Time) :
  Forall (fun x => keeps ParseLogLevel i x = false) skipped ->
  (forall err rest,
     iter i = Some (mkSequence (map inl skipped ++ inr err :: rest) c) ->
     Next ParseLogLevel i now
       = (inr err, {| iter := Some (mkSequence rest c); access := now;
                      search := search i; level := level i |}))
  /\ (iter i = Some (mkSequence (map inl skipped) c) ->
      Next ParseLogLevel i now
        = (inr io_EOF, {| iter := Some (mkSequence [] c); access := now;
                          search := search i; level := level i |})
      /\ forall later,
           fst (Next ParseLogLevel (snd (Next ParseLogLevel i now)) later)
             = inr io_EOF).
Proof.
  intros Hskip.
  assert (E2 : Next_loop ParseLogLevel i c (map inl skipped)
               = (inr io_EOF, mkSequence [] c)).
  { rewrite <- (app_nil_r (map inl skipped)).
    rewrite (Next_loop_skips i c skipped _ Hskip). reflexivity. }
  assert (E1 : forall err rest,
             Next_loop ParseLogLevel i c (map inl skipped ++ inr err :: rest)
             = (inr err, mkSequence rest c)).
  { intros err rest. rewrite (Next_loop_skips i c skipped _ Hskip). reflexivity. }
  split.
  - intros err rest Hi. unfold Next. simpl. rewrite Hi. simpl.
    rewrite (SearchFacts.Next_loop_ext ParseLogLevel _ i) by reflexivity.
    rewrite E1. reflexivity.
  - intros Hi.
    assert (EN : Next ParseLogLevel i now
                 = (inr io_EOF, {| iter := Some (mkSequence [] c); access := now;
                                   search := search i; level := level i |})).
    { unfold Next. simpl. rewrite Hi. simpl.
      rewrite (SearchFacts.Next_loop_ext ParseLogLevel _ i) by reflexivity.
      rewrite E2. reflexivity. }
    split; [exact EN|]. intros later. rewrite EN. reflexivity.
Qed.

End WithSequences.

(** ** The watcher over several turns *)

(** While every check finds the session used within the last sixty
    seconds the loop keeps turning and changes nothing; the first check
    that finds it idle for longer removes the session and ends the loop,
    the checks that would have followed being never made. *)
Theorem Gc_loop_stops_at_first_idle_check (w : World) (token : string)
    (p : ptr) (i : IterWithAccessTime) (early : list Time) :
  heap w !! p = Some i ->
  Forall (fun t => t - access i <= 60 * time_Second) early ->
  Gc_loop w token p early = (w, false)
  /\ forall t later,
       60 * time_Second < t - access i ->
       Gc_loop w token p (early ++ t :: later) = (Gc_removed w token p i, true).
Proof.
  intros Hheap Hearly. induction Hearly as [|t0 l Ht0 Hl IH].
  - split; [reflexivity|]. intros t later Ht. cbn [app Gc_loop].
    destruct (SearchFacts.Gc_iteration_cases w token p i t Hheap)
      as [[_ ->] | [Hc _]]; [reflexivity | lia].
  - destruct IH as [IH1 IH2]. split.
    + cbn [Gc_loop].
      destruct (SearchFacts.Gc_iteration_cases w token p i t0 Hheap)
        as [[Hc _] | [_ ->]]; [lia | exact IH1].
    + intros t later Ht. cbn [app Gc_loop].
      destruct (SearchFacts.Gc_iteration_cases w token p i t0 Hheap)
        as [[Hc _] | [_ ->]]; [lia | exact (IH2 t later Ht)].
Qed.

(** A turn of the watcher of one session leaves the other sessions alone:
    every other token reads as before, every other iterator is unchanged,
    and no goroutine is started. *)
Theorem Gc_iteration_frame (w : World) (token : string) (p : ptr)
    (i : IterWithAccessTime) (now : Time) :
  heap w !! p = Some i ->
  (forall token', token' <> token ->
     GetIter (fst (Gc_iteration w token p now)) token' = GetIter w token')
  /\ (forall p', p' <> p ->
        heap (fst (Gc_iteration w token p now)) !! p' = heap w !! p')
  /\ goroutines (fst (Gc_iteration w token p now)) = goroutines w.
Proof.
  intros Hheap.
  destruct (SearchFacts.Gc_iteration_cases w token p i now Hheap)
    as [[_ ->] | [_ ->]]; cbn [fst]; [|auto].
  split; [|split].
  - intros token' Hne. unfold GetIter. simpl. apply lookup_delete_ne. congruence.
  - intros p' Hne. simpl. apply lookup_insert_ne. congruence.
  - reflexivity.
Qed.

(** After the watcher has found a session idle for more than sixty
    seconds, presenting its token gives "target not found". *)
Theorem Search_after_idle_removal
    (NewSequence : string -> Time -> Time -> Sequence + error)
    (w : World) (token : string) (p : ptr) (i : IterWithAccessTime)
    (check : Time) (u : UUID) (now : Time) (dir : string) (begin end_ : Time)
    (level text : string) :
  token <> "" ->
  heap w !! p = Some i ->
  60 * time_Second < check - access i ->
  Search NewSequence (fst (Gc_iteration w token p check)) u now dir begin end_
         level text token
    = ((None, token, Some (errors_New "target not found")),
       fst (Gc_iteration w token p check)).
Proof.
  intros Htok Hheap Hidle.
  destruct (SearchFacts.Gc_iteration_cases w token p i check Hheap)
    as [[_ ->] | [Hc _]]; [|lia].
  cbn [fst]. apply SearchFacts.Search_after_removal. exact Htok.
Qed.

(** ** The theorems at sample states *)

Lemma Search_creates_session_witness :
  working_NewSequence "/var/log" 0 0 = inl (mkSequence sample_items None)
  /\ exists p w',
       Search working_NewSequence one_session sample_uuid 100 "/var/log" 0 0
              "ERROR" "slow" ""
         = ((Some p, UUID_String sample_uuid, None), w')
       /\ heap one_session !! p = None
       /\ heap w' !! p
          = Some {| iter := Some (mkSequence sample_items None); access := 100;
                    search := list_byte_of_string "slow"; level := "ERROR" |}
       /\ (forall p', p' <> p -> heap w' !! p' = heap one_session !! p')
       /\ srv w' = srv one_session
       /\ goroutines w' = goroutines one_session ++ [(UUID_String sample_uuid, p)].
Proof.
  split; [reflexivity|].
  apply (Search_creates_session working_NewSequence one_session sample_uuid 100
           "/var/log" 0 0 "ERROR" "slow" (mkSequence sample_items None)).
  reflexivity.
Defined.

Lemma Search_token_needs_watcher_witness :
  working_NewSequence "/var/log" 0 0 = inl (mkSequence sample_items None)
  /\ GetIter one_session (UUID_String sample_uuid) = None
  /\ exists p w',
       Search working_NewSequence one_session sample_uuid 100 "/var/log" 0 0
              "" "" ""
         = ((Some p, UUID_String sample_uuid, None), w')
       /\ Search working_NewSequence w' sample_uuid 101 "/var/log" 0 0 "" ""
                 (UUID_String sample_uuid)
          = ((None, UUID_String sample_uuid,
              Some (errors_New "target not found")), w')
       /\ Search working_NewSequence
                 (fst (Gc w' (UUID_String sample_uuid) p [])) sample_uuid 101
                 "/var/log" 0 0 "" "" (UUID_String sample_uuid)
          = ((Some p, UUID_String sample_uuid, None),
             fst (Gc w' (UUID_String sample_uuid) p [])).
Proof.
  split; [reflexivity|]. split; [reflexivity|].
  destruct (Search_token_needs_watcher working_NewSequence one_session
              sample_uuid 100 "/var/log" 0 0 "" ""
              (mkSequence sample_items None) eq_refl eq_refl)
    as (p & w' & Hs & Hbefore & Hafter).
  exists p, w'. split; [exact Hs|]. split; [apply Hbefore | apply Hafter].
Defined.

Lemma Next_yields_first_kept_witness :
  iter error_iter
    = Some (mkSequence
              (map inl [ sample_item 1 LevelINFO "slow query foo";
                         sample_item 2 LevelERROR "region unavailable" ]
               ++ inl (sample_item 3 LevelERROR "slow query bar") :: [])
              None)
  /\ Forall (fun x => keeps Cluster.ParseLogLevel error_iter x = false)
            [ sample_item 1 LevelINFO "slow query foo";
              sample_item 2 LevelERROR "region unavailable" ]
  /\ keeps Cluster.ParseLogLevel error_iter
           (sample_item 3 LevelERROR "slow query bar") = true
  /\ Next Cluster.ParseLogLevel error_iter 7
     = (inl (sample_item 3 LevelERROR "slow query bar"),
        {| iter := Some (mkSequence [] None); access := 7;
           search := search error_iter; level := level error_iter |}).
Proof.
  assert (Hskip : Forall (fun x => keeps Cluster.ParseLogLevel error_iter x = false)
                         [ sample_item 1 LevelINFO "slow query foo";
                           sample_item 2 LevelERROR "region unavailable" ])
    by (repeat constructor).
  split; [reflexivity|]. split; [exact Hskip|]. split; [reflexivity|].
  apply (Next_yields_first_kept Cluster.ParseLogLevel error_iter None
           [ sample_item 1 LevelINFO "slow query foo";
             sample_item 2 LevelERROR "region unavailable" ]
           (sample_item 3 LevelERROR "slow query bar") [] 7
           eq_refl Hskip eq_refl).
Defined.

Lemma Next_passes_errors_witness :
  Forall (fun x => keeps Cluster.ParseLogLevel broken_iter x = false)
         [ sample_item 2 LevelERROR "region unavailable" ]
  /\ Next Cluster.ParseLogLevel broken_iter 7
     = (inr (errors_New "read failed"),
        {| iter := Some (mkSequence
                           [ inl (sample_item 3 LevelERROR "slow query bar") ]
                           None);
           access := 7;
           search := search broken_iter; level := level broken_iter |}).
Proof.
  assert (Hskip : Forall (fun x => keeps Cluster.ParseLogLevel broken_iter x = false)
                         [ sample_item 2 LevelERROR "region unavailable" ])
    by (repeat constructor).
  split; [exact Hskip|].
  apply (proj1 (Next_passes_errors Cluster.ParseLogLevel broken_iter None
                  [ sample_item 2 LevelERROR "region unavailable" ] 7 Hskip)).
  reflexivity.
Defined.

Lemma Gc_loop_stops_at_first_idle_check_witness :
  heap one_session !! 1%positive = Some idle_iter
  /\ Forall (fun t => t - access idle_iter <= 60 * time_Second)
            [10 * time_Second; 60 * time_Second]
  /\ Gc_loop one_session "t" 1%positive [10 * time_Second; 60 * time_Second]
     = (one_session, false)
  /\ Gc_loop one_session "t" 1%positive
             ([10 * time_Second; 60 * time_Second] ++ after_61s :: [after_61s + 1])
     = (Gc_removed one_session "t" 1%positive idle_iter, true).
Proof.
  assert (Hearly : Forall (fun t => t - access idle_iter <= 60 * time_Second)
                          [10 * time_Second; 60 * time_Second]).
  { repeat constructor; vm_compute; discriminate. }
  split; [reflexivity|]. split; [exact Hearly|].
  destruct (Gc_loop_stops_at_first_idle_check one_session "t" 1%positive idle_iter
              _ eq_refl Hearly) as [Hkeep Hstop].
  split; [exact Hkeep|]. apply Hstop. vm_compute. reflexivity.
Defined.

Lemma Gc_iteration_frame_witness :
  heap one_session !! 1%positive = Some idle_iter
  /\ (forall token', token' <> "t" ->
        GetIter (fst (Gc_iteration one_session "t" 1%positive after_61s)) token'
        = GetIter one_session token')
  /\ (forall p', p' <> 1%positive ->
        heap (fst (Gc_iteration one_session "t" 1%positive after_61s)) !! p'
        = heap one_session !! p')
  /\ goroutines (fst (Gc_iteration one_session "t" 1%positive after_61s))
     = goroutines one_session.
Proof.
  split; [reflexivity|].
  apply (Gc_iteration_frame one_session "t" 1%positive idle_iter after_61s).
  reflexivity.
Defined.

Lemma Search_after_idle_removal_witness :
  "t" <> ""
  /\ heap one_session !! 1%positive = Some idle_iter
  /\ 60 * time_Second < after_61s - access idle_iter
  /\ Search failing_NewSequence
            (fst (Gc_iteration one_session "t" 1%positive after_61s))
            sample_uuid 100 "" 0 0 "" "" "t"
     = ((None, "t", Some (errors_New "target not found")),
        fst (Gc_iteration one_session "t" 1%positive after_61s)).
Proof.
  assert (H1 : "t" <> "") by discriminate.
  assert (H3 : 60 * time_Second < after_61s - access idle_iter)
    by (vm_compute; reflexivity).
  split; [exact H1|]. split; [reflexivity|]. split; [exact H3|].
  apply (Search_after_idle_removal failing_NewSequence one_session "t" 1%positive
           idle_iter after_61s sample_uuid 100 "" 0 0 "" "" H1 eq_refl H3).
Defined.

Lemma Gc_keeps_at_sixty_seconds_witness :
  heap one_session !! 1%positive = Some idle_iter
  /\ Gc_iteration one_session "t" 1%positive (access idle_iter + 60 * time_Second)
     = (one_session, false).
Proof.
  split; [reflexivity|].
  apply (SearchFacts.Gc_keeps_at_sixty_seconds one_session "t" 1%positive idle_iter).
  reflexivity.
Defined.

Lemma Gc_stops_after_sleep_witness :
  heap one_session !! 1%positive = Some idle_iter
  /\ Gc_wakeup idle_iter (10 * time_Second) < after_61s
  /\ Gc_iteration one_session "t" 1%positive after_61s
     = (Gc_removed one_session "t" 1%positive idle_iter, true).
Proof.
  assert (H2 : Gc_wakeup idle_iter (10 * time_Second) < after_61s)
    by (vm_compute; reflexivity).
  split; [reflexivity|]. split; [exact H2|].
  apply (SearchFacts.Gc_stops_after_sleep one_session "t" 1%positive idle_iter
           (10 * time_Second) after_61s eq_refl H2).
Defined.

End SearchExtra.

(** * Properties of perfschema/profile.go *)

Module ProfileFacts.
Import Profile.

Lemma Node_ind' (P : Node -> Prop) :
  (forall name location cum cumFormat percent children,
     Forall P children -> P (mkNode name location cum cumFormat percent children)) ->
  forall node, P node.
Proof.
  intros H. fix IH 1. intros [name location cum cumFormat percent children].
  apply H. induction children as [|c children IHc]; constructor;
    [apply IH | exact IHc].
Qed.

Lemma replace_closest_length (l : list rune) (r : rune) (n : nat) :
  length (replace_closest l r n) = length l.
Proof.
  induction n as [|i IH]; simpl; [reflexivity|].
  destruct (l !! i) as [c|]; [|exact IH].
  destruct (c =? treeBody); [apply length_insert | exact IH].
Qed.

Lemma replace_closest_found (pre post : list rune) (r : rune) (k : nat) :
  (forall j c, (j < k)%nat -> post !! j = Some c -> c <> treeBody) ->
  (k <= length post)%nat ->
  replace_closest (pre ++ treeBody :: post) r (length pre + 1 + k)
  = pre ++ r :: post.
Proof.
  intros Hpost Hk. induction k as [|k IH].
  - replace (length pre + 1 + 0)%nat with (S (length pre)) by lia.
    cbn [replace_closest]. rewrite list_lookup_middle by reflexivity.
    rewrite Z.eqb_refl. 
    rewrite insert_app_r_alt by lia. rewrite Nat.sub_diag. reflexivity.
  - replace (length pre + 1 + S k)%nat with (S (length pre + 1 + k)) by lia.
    cbn [replace_closest].
    destruct (lookup_lt_is_Some_2 post k ltac:(lia)) as [c Hc].
    assert (Hl : (pre ++ treeBody :: post) !! (length pre + 1 + k)%nat = Some c).
    { rewrite lookup_app_r by lia.
      replace (length pre + 1 + k - length pre)%nat with (S k) by lia. exact Hc. }
    rewrite Hl.
    destruct (Z.eqb_spec c treeBody) as [E|_].
    + exfalso. exact (Hpost k c ltac:(lia) Hc E).
    + apply IH; [|lia]. intros j c' Hj. apply Hpost. lia.
Qed.

Lemma replace_closest_absent (l : list rune) (r : rune) (n : nat) :
  (forall j c, (j < n)%nat -> l !! j = Some c -> c <> treeBody) ->
  replace_closest l r n = l.
Proof.
  induction n as [|i IH]; intros H; simpl; [reflexivity|].
  destruct (l !! i) as [c|] eqn:E.
  - destruct (Z.eqb_spec c treeBody) as [Ec|_].
    + exfalso. exact (H i c ltac:(lia) E Ec).
    + apply IH. intros j c' Hj. apply H. lia.
  - apply IH. intros j c' Hj. apply H. lia.
Qed.

Lemma replace_closest_tail (prefix : list Z) (r : Z) :
  replace_closest (prefix ++ [treeBody; treeGap]) r (length (prefix ++ [treeBody; treeGap]))
  = prefix ++ [r; treeGap].
Proof.
  rewrite length_app. simpl length.
  replace (length prefix + 2)%nat with (length prefix + 1 + 1)%nat by lia.
  apply (replace_closest_found prefix [treeGap] r 1).
  - intros j c Hj Hc. destruct j; [|lia]. injection Hc as <-. discriminate.
  - simpl. lia.
Qed.

(** The indent of the children is two runes longer than the indent of the
    node and ends in a bar and a gap.  Below a node that is not a last
    child the indent of the node is kept as it is; below a last child its
    closest bar is blanked, and nothing else changes. *)
Theorem getIndent4Child_shape (indent : list Z) (isLastChild : bool) :
  length (getIndent4Child indent isLastChild) = (length indent + 2)%nat
  /\ getIndent4Child indent false = indent ++ [treeBody; treeGap]
  /\ (forall pre post,
        indent = pre ++ treeBody :: post -> Forall (fun c => c <> treeBody) post ->
        getIndent4Child indent true = pre ++ treeGap :: post ++ [treeBody; treeGap])
  /\ (Forall (fun c => c <> treeBody) indent ->
      getIndent4Child indent true = indent ++ [treeBody; treeGap]).
Proof.
  split; [|split; [reflexivity|split]].
  - unfold getIndent4Child. destruct isLastChild; simpl;
      rewrite length_app, ?replace_closest_length; simpl; lia.
  - intros pre post -> Hpost. unfold getIndent4Child. simpl.
    rewrite length_app. simpl length.
    replace (length pre + S (length post))%nat with (length pre + 1 + length post)%nat by lia.
    rewrite replace_closest_found; [|
      intros j c _ Hc; exact (Forall_lookup_1 _ _ _ _ Hpost Hc) | lia].
    rewrite <- app_assoc. reflexivity.
  - intros Hno. unfold getIndent4Child. simpl.
    rewrite replace_closest_absent; [reflexivity|].
    intros j c _ Hc. exact (Forall_lookup_1 _ _ _ _ Hno Hc).
Qed.

Lemma prettyIdentifier_tail (id prefix : list Z) (isLastChild : bool) :
  prettyIdentifier id (prefix ++ [treeBody; treeGap]) isLastChild
  = prefix
    ++ [if isLastChild then treeLastNode else treeMiddleNode; treeNodeIdentifier]
    ++ id.
Proof.
  unfold prettyIdentifier.
  rewrite replace_closest_tail.
  rewrite !length_app. simpl length.
  replace (length prefix + 2 =? 0)%nat with false by (symmetry; apply Nat.eqb_neq; lia).
  replace (length prefix + 2 - 1)%nat with (length prefix + 1)%nat by lia.
  rewrite insert_app_r_alt by lia.
  replace (length prefix + 1 - length prefix)%nat with 1%nat by lia.
  cbn. rewrite <- app_assoc. reflexivity.
Qed.

(** With an empty indent the identifier is the name itself.  Otherwise the
    identifier is the indent, rewritten in place, followed by the name, and
    has as many runes as the indent and the name together: on
    an indent ending in a bar and a gap, as [getIndent4Child] makes them,
    these two runes become the connector ('└' for a last child, '├'
    otherwise) and a dash; on an indent without any bar only the last rune
    changes, to a dash. *)
Theorem prettyIdentifier_shape (id indent : list Z) (isLastChild : bool) :
  prettyIdentifier id [] isLastChild = id
  /\ (indent <> [] ->
      length (prettyIdentifier id indent isLastChild) = (length indent + length id)%nat)
  /\ (forall prefix,
        prettyIdentifier id (prefix ++ [treeBody; treeGap]) isLastChild
        = prefix
          ++ [if isLastChild then treeLastNode else treeMiddleNode; treeNodeIdentifier]
          ++ id)
  /\ (indent <> [] -> Forall (fun c => c <> treeBody) indent ->
      prettyIdentifier id indent isLastChild
      = removelast indent ++ [treeNodeIdentifier] ++ id).
Proof.
  split; [reflexivity|]. split; [|split].
  - intros Hne. unfold prettyIdentifier.
    destruct indent as [|c indent]; [contradiction|]. cbn [length Nat.eqb].
    rewrite length_app, length_insert, replace_closest_length. reflexivity.
  - intros prefix. apply prettyIdentifier_tail.
  - intros Hne Hno. unfold prettyIdentifier.
    destruct (length indent =? 0)%nat eqn:E.
    { apply Nat.eqb_eq in E. destruct indent; [contradiction|discriminate]. }
    rewrite replace_closest_absent.
    2:{ intros j c _ Hc. exact (Forall_lookup_1 _ _ _ _ Hno Hc). }
    rewrite (app_assoc (removelast indent)). f_equal.
    clear - Hne. destruct indent as [|c l _] using rev_ind; [contradiction|].
    rewrite removelast_last, length_app. simpl length.
    replace (length l + 1 - 1)%nat with (length l) by lia.
    rewrite insert_app_r_alt by lia. rewrite Nat.sub_diag. reflexivity.
Qed.

Lemma int64_small (z : Z) : - 2 ^ 63 <= z < 2 ^ 63 -> int64 z = z.
Proof. intros H. unfold int64. rewrite Z.mod_small by lia. lia. Qed.

Section WithFormatting.
Variable Percentage : Z -> Z -> list Z.
Variable TrimSpace : list Z -> list Z.

Local Abbreviation collect := (collect Percentage TrimSpace).
Local Abbreviation collect_children := (collect_children Percentage TrimSpace).
Local Abbreviation node_row := (node_row Percentage TrimSpace).

Lemma collect_unfold (Rows : list (list Datum)) (node : Node) (depth : Z)
    (indent : list Z) (rootChild parentCur : Z) (isLastChild : bool) :
  collect Rows node depth indent rootChild parentCur isLastChild
  = collect_children
      (Rows ++ [node_row node depth indent rootChild parentCur isLastChild])
      O (Children node) (length (Children node)) depth
      (getIndent4Child indent isLastChild) rootChild (Cum node).
Proof.
  destruct node as [name location cum cumFormat percent children].
  cbn [Profile.collect Children Cum].
  remember (length children) as len eqn:Hlen. clear Hlen.
  match goal with
  | |- ?f ?acc O children = _ =>
      assert (H : forall rest i a,
                 f a i rest
                 = collect_children a i rest len depth
                     (getIndent4Child indent isLastChild) rootChild cum)
  end.
  { induction rest as [|c rest IH]; intros i a; [reflexivity|].
    cbn [Profile.collect_children]. rewrite <- IH. reflexivity. }
  apply H.
Qed.

Lemma collect_children_acc (rest : list Node) :
  Forall (fun node => forall Rows depth indent rootChild parentCur isLastChild,
            collect Rows node depth indent rootChild parentCur isLastChild
            = Rows ++ collect [] node depth indent rootChild parentCur isLastChild)
         rest ->
  forall Rows i len depth indent4Child rootChild cum,
    collect_children Rows i rest len depth indent4Child rootChild cum
    = Rows ++ collect_children [] i rest len depth indent4Child rootChild cum.
Proof.
  induction 1 as [|c rest Hc Hrest IH]; intros Rows i len depth ind rc cum.
  - simpl. rewrite app_nil_r. reflexivity.
  - cbn [Profile.collect_children].
    rewrite IH. rewrite (IH (collect [] c _ _ _ _ _)).
    rewrite Hc, app_assoc. reflexivity.
Qed.

Lemma collect_acc (node : Node) :
  forall Rows depth indent rootChild parentCur isLastChild,
    collect Rows node depth indent rootChild parentCur isLastChild
    = Rows ++ collect [] node depth indent rootChild parentCur isLastChild.
Proof.
  induction node as [name location cum cumFormat percent children IH] using Node_ind'.
  intros. rewrite !collect_unfold.
  rewrite (collect_children_acc _ IH). rewrite (collect_children_acc _ IH ([] ++ _)).
  rewrite <- app_assoc. reflexivity.
Qed.

Lemma collect_nil (node : Node) (depth : Z) (indent : list Z)
    (rootChild parentCur : Z) (isLastChild : bool) :
  collect [] node depth indent rootChild parentCur isLastChild
  = node_row node depth indent rootChild parentCur isLastChild
    :: collect_children [] O (Children node) (length (Children node)) depth
         (getIndent4Child indent isLastChild) rootChild (Cum node).
Proof.
  rewrite collect_unfold.
  rewrite (collect_children_acc (Children node)); [reflexivity|].
  apply List.Forall_forall. intros c _. apply collect_acc.
Qed.

Lemma collect_children_cons (c : Node) (rest : list Node) (i len : nat)
    (depth : Z) (indent4Child : list Z) (rootChild cum : Z) :
  collect_children [] i (c :: rest) len depth indent4Child rootChild cum
  = collect [] c (int64 (depth + 1)) indent4Child
      (if depth =? 0 then Z.of_nat i + 1 else rootChild) cum (Nat.eqb i (len - 1))
    ++ collect_children [] (S i) rest len depth indent4Child rootChild cum.
Proof.
  cbn [Profile.collect_children].
  apply collect_children_acc. apply List.Forall_forall. intros n _. apply collect_acc.
Qed.

Lemma collect_children_length (rest : list Node) :
  Forall (fun node => forall depth indent rootChild parentCur isLastChild,
            length (collect [] node depth indent rootChild parentCur isLastChild)
            = size node) rest ->
  forall i len depth indent4Child rootChild cum,
    length (collect_children [] i rest len depth indent4Child rootChild cum)
    = list_sum (map size rest).
Proof.
  induction 1 as [|c rest Hc Hrest IH]; intros; [reflexivity|].
  rewrite collect_children_cons, length_app, Hc, IH. reflexivity.
Qed.

Lemma collect_length (node : Node) :
  forall depth indent rootChild parentCur isLastChild,
    length (collect [] node depth indent rootChild parentCur isLastChild) = size node.
Proof.
  induction node as [name location cum cumFormat percent children IH] using Node_ind'.
  intros. rewrite collect_nil. cbn [length Children size].
  rewrite (collect_children_length _ IH). reflexivity.
Qed.

Lemma preorder_unfold (level : nat) (parentCur : Z) (node : Node) :
  preorder level parentCur node
  = (node, level, parentCur)
    :: flat_map (preorder (S level) (Cum node)) (Children node).
Proof. destruct node; reflexivity. Qed.

Lemma collect_children_preorder (top : Z) (level : nat) (rest : list Node) :
  Forall (fun node => forall level indent rootChild parentCur isLastChild,
            Forall2 (fun row nlc =>
                       exists ind rc last,
                         row = node_row (fst (fst nlc)) (depth_below top (snd (fst nlc)))
                                        ind rc (snd nlc) last)
                    (collect [] node (depth_below top level) indent rootChild
                             parentCur isLastChild)
                    (preorder level parentCur node)) rest ->
  forall i len indent4Child rootChild cum,
    Forall2 (fun row nlc =>
               exists ind rc last,
                 row = node_row (fst (fst nlc)) (depth_below top (snd (fst nlc)))
                                ind rc (snd nlc) last)
            (collect_children [] i rest len (depth_below top level) indent4Child
                              rootChild cum)
            (flat_map (preorder (S level) cum) rest).
Proof.
  induction 1 as [|c rest Hc Hrest IH]; intros; [constructor|].
  rewrite collect_children_cons. cbn [flat_map].
  apply Forall2_app; [|apply IH].
  change (int64 (depth_below top level + 1)) with (depth_below top (S level)).
  apply Hc.
Qed.

Lemma collect_preorder (top : Z) (node : Node) :
  forall level indent rootChild parentCur isLastChild,
    Forall2 (fun row nlc =>
               exists ind rc last,
                 row = node_row (fst (fst nlc)) (depth_below top (snd (fst nlc)))
                                ind rc (snd nlc) last)
            (collect [] node (depth_below top level) indent rootChild parentCur
                     isLastChild)
            (preorder level parentCur node).
Proof.
  induction node as [name location cum cumFormat percent children IH] using Node_ind'.
  intros. rewrite collect_nil, preorder_unfold. constructor.
  - cbn [fst snd]. eexists. eexists. eexists. reflexivity.
  - apply collect_children_preorder. exact IH.
Qed.

(** [collect] keeps the rows gathered so far and adds one row per node of
    the tree, in pre-order: the row of the node as called, then the rows
    of its descendants, a node before its own descendants and the
    subtrees of the children in the order of [Children]. The row of each
    node holds its name behind an indent, its [Percent], the percentage
    of its [Cum] in the [Cum] of its parent, a root child, its depth,
    which is one more per edge below the node as called, and its
    [Location]. *)
Theorem collect_appends_preorder (Rows : list (list Datum)) (node : Node)
    (depth : Z) (indent : list Z) (rootChild parentCur : Z) (isLastChild : bool) :
  exists below,
    collect Rows node depth indent rootChild parentCur isLastChild
    = Rows ++ node_row node depth indent rootChild parentCur isLastChild :: below
    /\ length below
       = list_sum (map size (Children node))
    /\ length (collect Rows node depth indent rootChild parentCur isLastChild)
       = (length Rows + size node)%nat
    /\ Forall2 (fun row nlc =>
                  exists ind rc last,
                    row = node_row (fst (fst nlc)) (depth_below depth (snd (fst nlc)))
                                   ind rc (snd nlc) last)
               (node_row node depth indent rootChild parentCur isLastChild :: below)
               (preorder 0 parentCur node).
Proof.
  rewrite collect_acc.
  pose proof (collect_length node depth indent rootChild parentCur isLastChild) as Hlen.
  pose proof (collect_preorder depth node 0 indent rootChild parentCur isLastChild)
    as Hpre.
  change (depth_below depth 0) with depth in Hpre.
  rewrite collect_nil in *.
  eexists. split; [reflexivity|]. split; [|split].
  - cbn [length] in Hlen. destruct node; cbn [size Children] in *. lia.
  - rewrite length_app, Hlen. reflexivity.
  - exact Hpre.
Qed.

Lemma draw_unfold (prefix : list Z) (isLastChild : bool) (node : Node) :
  draw prefix isLastChild node
  = (prefix
     ++ [if isLastChild then treeLastNode else treeMiddleNode; treeNodeIdentifier]
     ++ Name node)
    :: draw_children
         (prefix ++ (if isLastChild then [treeGap; treeGap] else [treeBody; treeGap]))
         O (Children node) (length (Children node)).
Proof.
  destruct node as [name location cum cumFormat percent children].
  cbn [draw Children Name]. f_equal.
  remember (length children) as len eqn:Hlen. clear Hlen.
  match goal with
  | |- ?f O children = _ =>
      assert (H : forall rest i,
                 f i rest
                 = draw_children
                     (prefix ++ (if isLastChild then [treeGap; treeGap]
                                 else [treeBody; treeGap])) i rest len)
  end.
  { induction rest as [|c rest IH]; intros i; [reflexivity|].
    cbn [draw_children]. rewrite <- IH. reflexivity. }
  apply H.
Qed.

Lemma getIndent4Child_tail (prefix : list Z) (isLastChild : bool) :
  getIndent4Child (prefix ++ [treeBody; treeGap]) isLastChild
  = (prefix ++ (if isLastChild then [treeGap; treeGap] else [treeBody; treeGap]))
    ++ [treeBody; treeGap].
Proof.
  unfold getIndent4Child. destruct isLastChild; simpl.
  - rewrite replace_closest_tail. reflexivity.
  - reflexivity.
Qed.

Lemma collect_children_draws (rest : list Node) :
  Forall (fun node => forall depth prefix rootChild parentCur isLastChild,
            map function_of
              (collect [] node depth (prefix ++ [treeBody; treeGap]) rootChild
                       parentCur isLastChild)
            = draw prefix isLastChild node) rest ->
  forall i len depth prefix rootChild cum,
    map function_of
      (collect_children [] i rest len depth (prefix ++ [treeBody; treeGap])
                        rootChild cum)
    = draw_children prefix i rest len.
Proof.
  induction 1 as [|c rest Hc Hrest IH]; intros; [reflexivity|].
  rewrite collect_children_cons, map_app, Hc, IH. reflexivity.
Qed.

Lemma collect_draws (node : Node) :
  forall depth prefix rootChild parentCur isLastChild,
    map function_of
      (collect [] node depth (prefix ++ [treeBody; treeGap]) rootChild
               parentCur isLastChild)
    = draw prefix isLastChild node.
Proof.
  induction node as [name location cum cumFormat percent children IH] using Node_ind'.
  intros. rewrite collect_nil, draw_unfold. cbn [map Children Name]. f_equal.
  - unfold Profile.node_row, function_of. cbn [Name].
    apply prettyIdentifier_tail.
  - rewrite getIndent4Child_tail. apply (collect_children_draws _ IH).
Qed.

(** Called on the root with an empty indent, [collect] fills the FUNCTION
    column with the drawing of the tree: the bare name of the root, then
    every descendant behind the bars and gaps of its ancestors and its own
    connector. *)
Theorem collect_draws_tree (Rows : list (list Datum)) (root : Node)
    (rootChild parentCur : Z) (isLastChild : bool) :
  map function_of (collect Rows root 0 [] rootChild parentCur isLastChild)
  = map function_of Rows ++ draw_root root.
Proof.
  rewrite collect_acc, map_app. f_equal.
  rewrite collect_nil. unfold draw_root. cbn [map]. f_equal.
  replace (getIndent4Child [] isLastChild) with ([] ++ [treeBody; treeGap])
    by (destruct isLastChild; reflexivity).
  apply collect_children_draws. apply List.Forall_forall. intros c _.
  apply collect_draws.
Qed.


Lemma height_child (c : Node) (children : list Node) :
  In c children ->
  (S (height c) <= fold_right Nat.max O (map (fun c => S (height c)) children))%nat.
Proof.
  induction children as [|x l IH]; simpl; [contradiction|].
  intros [->|H]; [lia|]. specialize (IH H). lia.
Qed.

Lemma collect_columns (node : Node) :
  forall depth indent rootChild parentCur isLastChild,
    0 < depth -> depth + Z.of_nat (height node) < 2 ^ 63 ->
    Forall (fun row => root_child_of row = rootChild
                       /\ depth <= depth_of row <= depth + Z.of_nat (height node))
           (collect [] node depth indent rootChild parentCur isLastChild).
Proof.
  induction node as [name location cum cumFormat percent children IH] using Node_ind'.
  intros depth indent rc cur last Hpos Hmax. rewrite collect_nil.
  constructor; [cbn; lia|]. cbn [Children Cum].
  set (H := height (mkNode name location cum cumFormat percent children)) in *.
  assert (Hc : forall c, In c children -> (S (height c) <= H)%nat)
    by (intros c; apply height_child).
  clearbody H.
  generalize (getIndent4Child indent last) as ind. generalize (length children) as len.
  generalize O as i.
  induction IH as [|c rest Pc Prest IHrest]; intros i len ind; [constructor|].
  rewrite collect_children_cons. apply Forall_app. split.
  - specialize (Hc c (or_introl eq_refl)).
    destruct (Z.eqb_spec depth 0) as [E|_]; [lia|].
    rewrite int64_small by lia.
    eapply Forall_impl; [apply Pc; lia|].
    cbv beta. intros row [Hr Hd]. split; [exact Hr | lia].
  - apply IHrest. intros c' Hin. apply Hc. right. exact Hin.
Qed.

Lemma collect_children_top (rest : list Node) :
  forall i len indent4Child rootChild cum,
    collect_children [] i rest len 0 indent4Child rootChild cum
    = concat (imap (fun j child =>
                collect [] child 1 indent4Child (Z.of_nat (i + j) + 1) cum
                        (Nat.eqb (i + j) (len - 1))) rest).
Proof.
  induction rest as [|c rest IH]; intros; [reflexivity|].
  rewrite collect_children_cons, imap_cons. cbn [concat].
  rewrite Nat.add_0_r. f_equal. rewrite IH. f_equal.
  apply imap_ext. intros j x _. cbn. rewrite Nat.add_succ_r. reflexivity.
Qed.

(** Called at depth 0, [collect] numbers the children of the root from 1:
    the rows are the row of the root followed, child by child, by the rows
    of the subtree of each child, and every row below child number [i+1]
    carries that number as ROOT_CHILD and a DEPTH between 1 and the height
    of the tree. *)
Theorem collect_root_child (root : Node) (indent : list Z)
    (rootChild parentCur : Z) (isLastChild : bool) :
  Z.of_nat (height root) < 2 ^ 63 ->
  let under i child :=
    collect [] child 1 (getIndent4Child indent isLastChild) (Z.of_nat i + 1)
            (Cum root) (Nat.eqb i (length (Children root) - 1)) in
  collect [] root 0 indent rootChild parentCur isLastChild
  = node_row root 0 indent rootChild parentCur isLastChild
    :: concat (imap under (Children root))
  /\ forall i child,
       Children root !! i = Some child ->
       Forall (fun row => root_child_of row = Z.of_nat i + 1
                          /\ 1 <= depth_of row <= Z.of_nat (height root))
              (under i child).
Proof.
  intros Hh under. split.
  - rewrite collect_nil, collect_children_top. reflexivity.
  - intros i child Hi. unfold under.
    assert (Hc : (S (height child) <= height root)%nat).
    { destruct root as [name location cum cumFormat percent children].
      cbn [height Children] in *. apply height_child.
      apply list_elem_of_In. eapply list_elem_of_lookup_2. exact Hi. }
    eapply Forall_impl; [apply collect_columns; lia|].
    cbv beta. intros row [Hr Hd]. split; [exact Hr | lia].
Qed.

End WithFormatting.

(** ** The roots of the call graph *)

Lemma int64_add_idemp (a b : Z) : int64 (int64 a + b) = int64 (a + b).
Proof.
  unfold int64. f_equal.
  replace ((a + 2 ^ 63) mod 2 ^ 64 - 2 ^ 63 + b + 2 ^ 63)
    with ((a + 2 ^ 63) mod 2 ^ 64 + b) by lia.
  rewrite Zplus_mod_idemp_l. f_equal. lia.
Qed.

Lemma insert_middle {A} (R : list A) (x y : A) (T : list A) :
  <[length R := y]> (R ++ x :: T) = R ++ y :: T.
Proof. rewrite insert_app_r_alt by lia. rewrite Nat.sub_diag. reflexivity. Qed.

Lemma swap_last {A} (R O : list A) (m : A) :
  exists O',
    swap ((R ++ O) ++ [m]) (length R) (length ((R ++ O) ++ [m]) - 1)
    = (R ++ [m]) ++ O'
    /\ Permutation O' O.
Proof.
  rewrite !length_app. simpl length.
  replace (length R + length O + 1 - 1)%nat with (length R + length O)%nat by lia.
  unfold swap. destruct O as [|o O].
  - exists []. rewrite app_nil_r, Nat.add_0_r.
    rewrite list_lookup_middle by reflexivity.
    rewrite !insert_middle, app_nil_r. split; reflexivity.
  - exists (O ++ [o]).
    rewrite <- !app_assoc. cbn [app].
    rewrite list_lookup_middle by reflexivity.
    assert (Hl : (R ++ o :: O ++ [m]) !! (length R + length (o :: O))%nat = Some m).
    { rewrite lookup_app_r by lia.
      replace (length R + length (o :: O) - length R)%nat with (length (o :: O)) by lia.
      change (o :: O ++ [m]) with ((o :: O) ++ [m]).
      apply list_lookup_middle. reflexivity. }
    rewrite Hl. rewrite insert_middle.
    replace (length R + length (o :: O))%nat with (length (R ++ m :: O))
      by (rewrite length_app; reflexivity).
    change (R ++ m :: O ++ [m]) with (R ++ (m :: O) ++ [m]).
    rewrite (app_assoc R (m :: O) [m]). rewrite insert_middle.
    rewrite <- app_assoc. cbn [app].
    split; [reflexivity|]. symmetry. apply Permutation_cons_append.
Qed.

Lemma sum_values_app (a b : list Z) :
  sum_values (a ++ b) = sum_values a + sum_values b.
Proof. unfold sum_values. induction a as [|x a IH]; simpl; lia. Qed.

Section WithReport.
Variable Percentage : Z -> Z -> list Z.
Variable TrimSpace : list Z -> list Z.
Variable FormatValue : Z -> list Z.
Variable Total : Z.
Variable Sprintf_location : list Z -> Z -> list Z.

Local Abbreviation make_node := (make_node Percentage TrimSpace FormatValue Total Sprintf_location).
Local Abbreviation roots_step := (roots_step Percentage TrimSpace FormatValue Total Sprintf_location).
Local Abbreviation collect_roots := (collect_roots Percentage TrimSpace FormatValue Total Sprintf_location).

Lemma roots_invariant (todo : list GraphNode) :
  forall (done : list GraphNode) (st : Roots) (others : list Node),
    nodes st = map make_node (List.filter is_root done) ++ others ->
    Permutation others (map make_node (List.filter (fun n => negb (is_root n)) done)) ->
    nroots st = length (List.filter is_root done) ->
    rootValue st = int64 (sum_values (map CumValue (List.filter is_root done))) ->
    nodeArr st = map Info_Name done ->
    let st' := fold_left roots_step todo st in
    let all := done ++ todo in
    exists others',
      nodes st' = map make_node (List.filter is_root all) ++ others'
      /\ Permutation others'
           (map make_node (List.filter (fun n => negb (is_root n)) all))
      /\ nroots st' = length (List.filter is_root all)
      /\ rootValue st' = int64 (sum_values (map CumValue (List.filter is_root all)))
      /\ nodeArr st' = map Info_Name all.
Proof.
  induction todo as [|n todo IH]; intros done st others Hn Hp Hr Hv Ha; cbn zeta.
  - rewrite app_nil_r. exists others. auto.
  - cbn [fold_left]. replace (done ++ n :: todo) with ((done ++ [n]) ++ todo)
      by (rewrite <- app_assoc; reflexivity).
    destruct (is_root n) eqn:En.
    + assert (Hstep : roots_step st n
                = {| nodes := swap (nodes st ++ [make_node n]) (nroots st)
                                   (length (nodes st ++ [make_node n]) - 1);
                     nroots := S (nroots st);
                     rootValue := int64 (rootValue st + CumValue n);
                     nodeArr := nodeArr st ++ [Info_Name n] |}).
      { unfold Profile.roots_step. unfold is_root in En. rewrite En. reflexivity. }
      rewrite Hstep. clear Hstep.
      destruct (swap_last (map make_node (List.filter is_root done)) others (make_node n))
        as (O' & Hs & HO').
      eapply (IH (done ++ [n]) _ O'); cbn [nodes nroots rootValue nodeArr].
      * rewrite Hn, Hr, <- (length_map make_node), Hs.
        rewrite List.filter_app. cbn [List.filter]. rewrite En.
        rewrite map_app. reflexivity.
      * rewrite List.filter_app. cbn [List.filter]. rewrite En. cbn.
        rewrite app_nil_r. etransitivity; eassumption.
      * rewrite Hr, List.filter_app. cbn [List.filter]. rewrite En.
        rewrite length_app. simpl. lia.
      * rewrite Hv, int64_add_idemp, List.filter_app. cbn [List.filter]. rewrite En.
        rewrite map_app, sum_values_app. cbn. f_equal. lia.
      * rewrite Ha, map_app. reflexivity.
    + assert (Hstep : roots_step st n
                = {| nodes := nodes st ++ [make_node n];
                     nroots := nroots st;
                     rootValue := rootValue st;
                     nodeArr := nodeArr st ++ [Info_Name n] |}).
      { unfold Profile.roots_step. unfold is_root in En. rewrite En. reflexivity. }
      rewrite Hstep. clear Hstep.
      eapply (IH (done ++ [n]) _ (others ++ [make_node n]));
        cbn [nodes nroots rootValue nodeArr].
      * rewrite Hn, List.filter_app. cbn [List.filter]. rewrite En.
        rewrite app_nil_r, app_assoc. reflexivity.
      * rewrite List.filter_app. cbn [List.filter]. rewrite En. cbn.
        rewrite map_app. apply Permutation_app; [exact Hp | reflexivity].
      * rewrite Hr, List.filter_app. cbn [List.filter]. rewrite En.
        rewrite app_nil_r. reflexivity.
      * rewrite Hv, List.filter_app. cbn [List.filter]. rewrite En.
        rewrite app_nil_r. reflexivity.
      * rewrite Ha, map_app. reflexivity.
Qed.

(** The first loop of [profileToDatums] moves the nodes without incoming
    edges to the front: when it ends, [nodes[0:nroots]] holds exactly those
    nodes, in the order of the graph, the nodes with incoming edges follow
    in some order, no node is lost or repeated, [rootValue] is the wrapped
    sum of the values of the roots, and [nodeArr] lists every name. *)
Theorem collect_roots_partition (g_Nodes : list GraphNode) :
  let st := collect_roots g_Nodes in
  nroots st = length (List.filter is_root g_Nodes)
  /\ firstn (nroots st) (nodes st) = map make_node (List.filter is_root g_Nodes)
  /\ Permutation (skipn (nroots st) (nodes st))
       (map make_node (List.filter (fun n => negb (is_root n)) g_Nodes))
  /\ Permutation (nodes st) (map make_node g_Nodes)
  /\ rootValue st
     = int64 (sum_values (map CumValue (List.filter is_root g_Nodes)))
  /\ nodeArr st = map Info_Name g_Nodes.
Proof.
  cbn zeta. unfold Profile.collect_roots.
  destruct (roots_invariant g_Nodes [] (mkRoots [] O 0 []) [])
    as (others & Hn & Hp & Hr & Hv & Ha); try reflexivity.
  cbn [app] in *. rewrite Hn, Hr.
  split; [reflexivity|]. split; [|split; [|split; [|split]]].
  - rewrite <- (length_map make_node). rewrite firstn_app, Nat.sub_diag, firstn_all.
    cbn. apply app_nil_r.
  - rewrite <- (length_map make_node). rewrite skipn_app, Nat.sub_diag, skipn_all.
    cbn. exact Hp.
  - rewrite Hp, <- map_app. apply Permutation_map.
    clear. induction g_Nodes as [|n l IH]; cbn; [reflexivity|].
    destruct (is_root n); cbn.
    + apply perm_skip. exact IH.
    + rewrite <- Permutation_middle. apply perm_skip. exact IH.
  - exact Hv.
  - exact Ha.
Qed.

End WithReport.

(** ** The stack of a goroutine *)

Lemma frame_lines_length (frames : list (list Z * list Z)) :
  length (frame_lines frames) = (2 * length frames)%nat.
Proof. unfold frame_lines. induction frames as [|f l IH]; simpl; lia. Qed.

Lemma frame_lines_lookup (frames : list (list Z * list Z)) (tail : list (list Z))
    (i : nat) (f : list Z * list Z) :
  frames !! i = Some f ->
  (frame_lines frames ++ tail) !! (i * 2)%nat = Some (fst f)
  /\ (frame_lines frames ++ tail) !! (i * 2 + 1)%nat = Some (snd f).
Proof.
  revert i. induction frames as [|g l IH]; intros i H; [discriminate|].
  destruct i as [|i]; simpl in *.
  - injection H as ->. split; reflexivity.
  - apply IH. exact H.
Qed.

Section WithTrim.
Variable TrimSpace : list Z -> list Z.
Local Abbreviation stack_rows := (stack_rows TrimSpace).
Local Abbreviation frame_step := (frame_step TrimSpace).
Local Abbreviation frame_row := (frame_row TrimSpace).

Lemma half_length (frames : list (list Z * list Z)) (tail : list (list Z)) :
  (length tail <= 1)%nat ->
  (length (frame_lines frames ++ tail) / 2)%nat = length frames.
Proof.
  intros Ht. rewrite length_app, frame_lines_length.
  symmetry. apply (Nat.div_unique _ 2 _ (length tail)); lia.
Qed.

Lemma fold_frames (id : Z) (state : list Z) (stack : list (list Z))
    (frames : list (list Z * list Z)) (n : nat) :
  (forall i f, frames !! i = Some f ->
     stack !! (i * 2)%nat = Some (fst f) /\ stack !! (i * 2 + 1)%nat = Some (snd f)) ->
  (length stack / 2)%nat = n ->
  forall k rows,
    (k <= length frames)%nat ->
    fold_left (frame_step id state stack) (seq 0 k) rows
    = rows ++ imap (frame_row id state n) (firstn k frames).
Proof.
  intros Hlook Hn k. induction k as [|k IH]; intros rows Hk.
  - simpl. rewrite app_nil_r. reflexivity.
  - rewrite seq_S, fold_left_app. cbn [fold_left Nat.add]. rewrite IH by lia.
    destruct (lookup_lt_is_Some_2 frames k ltac:(lia)) as [f Hf].
    rewrite (take_S_r _ _ _ Hf), imap_app. cbn [imap].
    rewrite length_take, Nat.min_l by lia. rewrite Nat.add_0_r.
    unfold Profile.frame_step at 1.
    destruct (Hlook k f Hf) as [-> ->]. rewrite Hn.
    rewrite <- app_assoc. reflexivity.
Qed.

(** The loop over the stack of a goroutine pairs the lines up, function
    then location: it adds one row per pair, in order, and a last line
    without partner is dropped.  The first function is shown bare, also
    when it is the only one; the last of several gets '└─' and the others
    '├─'; every row carries the id and the state of the goroutine. *)
Theorem stack_rows_pairs (id : Z) (state : list Z)
    (frames : list (list Z * list Z)) (tail : list (list Z))
    (rows : list (list Datum)) :
  (length tail <= 1)%nat ->
  stack_rows id state (frame_lines frames ++ tail) rows
  = rows ++ imap (frame_row id state (length frames)) frames.
Proof.
  intros Ht. unfold Profile.stack_rows.
  rewrite (half_length frames tail Ht).
  rewrite (fold_frames id state _ frames (length frames)).
  - rewrite firstn_all. reflexivity.
  - intros i f. apply frame_lines_lookup.
  - apply half_length. exact Ht.
  - lia.
Qed.
End WithTrim.

(** ** The profiles of the TiKV nodes *)

Lemma gather_fold (ch : list result) :
  forall rows warnings,
    fold_left (gather None) ch (rows, warnings)
    = (rows ++ flat_map res_rows (List.filter succeeded ch),
       warnings ++ repeat None (length (List.filter (fun r => negb (succeeded r)) ch))).
Proof.
  induction ch as [|r ch IH]; intros rows warnings.
  - simpl. rewrite !app_nil_r. reflexivity.
  - cbn [fold_left List.filter].
    destruct (res_err r) as [e|] eqn:E.
    + assert (Hs : succeeded r = false) by (unfold succeeded; rewrite E; reflexivity).
      rewrite Hs. unfold gather at 2. rewrite E. cbn [fst snd negb length repeat].
      rewrite IH, <- app_assoc. reflexivity.
    + assert (Hs : succeeded r = true) by (unfold succeeded; rewrite E; reflexivity).
      rewrite Hs. unfold gather at 2. rewrite E. cbn [fst snd negb flat_map].
      rewrite IH, <- app_assoc. reflexivity.
Qed.

Lemma Permutation_filter_len {A} (f : A -> bool) (l l' : list A) :
  Permutation l l' -> length (List.filter f l) = length (List.filter f l').
Proof.
  induction 1 as [|x l l' H IH|x y l|l l' l'' H1 IH1 H2 IH2]; simpl.
  - reflexivity.
  - destruct (f x); simpl; congruence.
  - destruct (f x), (f y); reflexivity.
  - congruence.
Qed.

Lemma Permutation_flat_map_filter {A B} (f : A -> bool) (g : A -> list B)
    (l l' : list A) :
  Permutation l l' ->
  Permutation (flat_map g (List.filter f l)) (flat_map g (List.filter f l')).
Proof.
  induction 1 as [|x l l' H IH|x y l|l l' l'' H1 IH1 H2 IH2]; simpl.
  - reflexivity.
  - destruct (f x); simpl; [apply Permutation_app_head|]; exact IH.
  - destruct (f x), (f y); simpl; try reflexivity.
    rewrite !app_assoc. apply Permutation_app_tail, Permutation_app_comm.
  - etransitivity; eassumption.
Qed.

Section WithCluster.
Variable fetch : list Z -> list (list Datum) + Err.
Variable arrival : list result -> list result.

Local Abbreviation worker := (worker fetch).

Lemma worker_cases (row : list Z * list Z * list Z) :
  (exists e, fetch (profile_url (snd row)) = inr e
             /\ worker row = mkResult [] (Some e))
  \/ (exists payload,
        fetch (profile_url (snd row)) = inl payload
        /\ worker row
           = mkResult (map (fun r => [StringDatum (fst (fst row));
                                      StringDatum (snd (fst row))] ++ r) payload)
                      None).
Proof.
  destruct row as [[name address] statusAddr]. unfold Profile.worker. cbn [fst snd].
  destruct (fetch (profile_url statusAddr)) as [payload|e]; eauto.
Qed.

Lemma flat_map_succeeded (l : list (list Z * list Z * list Z)) :
  flat_map res_rows (List.filter succeeded (map worker l))
  = flat_map res_rows (map worker l).
Proof.
  induction l as [|row l IH]; [reflexivity|]. cbn [map List.filter flat_map].
  destruct (worker_cases row) as [(e & _ & ->) | (payload & _ & ->)];
    cbn [succeeded res_err res_rows flat_map app]; rewrite IH; reflexivity.
Qed.

(** Whatever the order in which the results arrive: once the query for
    the nodes has succeeded the function returns no error; the rows are
    those of the nodes whose profile could be fetched, each node's rows
    together and in arrival order; a node without status address gets a
    warning that names it; and a failed fetch adds a warning that carries
    no error at all, the cause of the failure being dropped. *)
Theorem tikv_rows_and_warnings (rows : list (list Z * list Z * list Z)) :
  let results := map worker (List.filter has_status rows) in
  Permutation (arrival results) results ->
  exists finalRows warnings,
    tikvCpuProfileGraph fetch arrival (inl rows) = (finalRows, None, warnings)
    /\ finalRows = flat_map res_rows (List.filter succeeded (arrival results))
    /\ Permutation finalRows (flat_map res_rows results)
    /\ warnings
       = map (fun row => Some (no_status_address (fst (fst row)) (snd (fst row))))
             (List.filter (fun row => negb (has_status row)) rows)
         ++ repeat None (length (List.filter (fun r => negb (succeeded r)) results)).
Proof.
  intros results Hperm. unfold tikvCpuProfileGraph. fold results.
  rewrite gather_fold. cbn [app].
  eexists. eexists. split; [reflexivity|]. split; [reflexivity|]. split.
  - rewrite (Permutation_flat_map_filter succeeded res_rows _ _ Hperm).
    unfold results. rewrite flat_map_succeeded. reflexivity.
  - f_equal. f_equal. apply Permutation_filter_len. exact Hperm.
Qed.

(** Every row returned starts with the name and the address of a node
    that has a status address and whose profile was fetched, followed by a
    row of that profile. *)
Theorem tikv_rows_origin (rows : list (list Z * list Z * list Z))
    (row : list Datum) :
  (forall r, In r (arrival (map worker (List.filter has_status rows))) ->
             In r (map worker (List.filter has_status rows))) ->
  In row (fst (fst (tikvCpuProfileGraph fetch arrival (inl rows)))) ->
  exists name address statusAddr payload r,
    In (name, address, statusAddr) rows
    /\ statusAddr <> []
    /\ fetch (profile_url statusAddr) = inl payload
    /\ In r payload
    /\ row = [StringDatum name; StringDatum address] ++ r.
Proof.
  intros Harr. unfold tikvCpuProfileGraph. rewrite gather_fold. cbn [fst app].
  intros Hin. apply in_flat_map in Hin as (res & Hres & Hrow).
  apply List.filter_In in Hres as [Hres Hok]. apply Harr in Hres.
  apply List.in_map_iff in Hres as (node & <- & Hnode).
  apply List.filter_In in Hnode as [Hnode Hstatus].
  destruct node as [[name address] statusAddr].
  destruct (worker_cases (name, address, statusAddr))
    as [(e & _ & Hw) | (payload & Hf & Hw)]; rewrite Hw in *; cbn in Hok, Hrow.
  - discriminate.
  - apply List.in_map_iff in Hrow as (r & <- & Hr).
    exists name, address, statusAddr, payload, r.
    split; [exact Hnode|]. split; [|auto].
    unfold has_status in Hstatus. cbn [snd] in Hstatus.
    intros ->. discriminate.
Qed.

End WithCluster.

(** A node without status address is never asked: what the fetcher would
    answer for any such node, or for any URL that belongs to no node, has
    no bearing on the outcome. *)
Theorem tikv_asks_only_nodes_with_status
    (fetch fetch' : list Z -> list (list Datum) + Err)
    (arrival : list result -> list result)
    (rows : list (list Z * list Z * list Z)) :
  (forall row, In row rows -> has_status row = true ->
     fetch (profile_url (snd row)) = fetch' (profile_url (snd row))) ->
  tikvCpuProfileGraph fetch arrival (inl rows)
  = tikvCpuProfileGraph fetch' arrival (inl rows).
Proof.
  intros H. unfold tikvCpuProfileGraph.
  assert (E : map (worker fetch) (List.filter has_status rows)
              = map (worker fetch') (List.filter has_status rows)).
  { apply map_ext_in. intros row Hrow. apply List.filter_In in Hrow as [Hin Hs].
    destruct row as [[name address] statusAddr]. unfold worker.
    pose proof (H _ Hin Hs) as Hf. cbn [snd] in Hf. rewrite Hf. reflexivity. }
  rewrite E. reflexivity.
Qed.

(** ** The theorems at sample inputs *)

Example collect_sample :
  map function_of
      (collect sample_Percentage sample_TrimSpace [] sample_tree 0 [] 0 100 false)
  = [ T "root";
      [treeLastNode; treeNodeIdentifier] ++ T "main";
      [treeGap; treeGap; treeMiddleNode; treeNodeIdentifier] ++ T "parse";
      [treeGap; treeGap; treeBody; treeGap; treeLastNode; treeNodeIdentifier]
        ++ T "lex";
      [treeGap; treeGap; treeLastNode; treeNodeIdentifier] ++ T "run" ].
Proof. reflexivity. Qed.

Lemma collect_root_child_witness :
  Z.of_nat (height sample_tree) < 2 ^ 63
  /\ forall i child,
       Children sample_tree !! i = Some child ->
       Forall (fun row => root_child_of row = Z.of_nat i + 1
                          /\ 1 <= depth_of row <= Z.of_nat (height sample_tree))
              (collect sample_Percentage sample_TrimSpace [] child 1
                       (getIndent4Child [] false) (Z.of_nat i + 1)
                       (Cum sample_tree)
                       (Nat.eqb i (length (Children sample_tree) - 1))).
Proof.
  assert (H : Z.of_nat (height sample_tree) < 2 ^ 63) by (vm_compute; reflexivity).
  split; [exact H|].
  exact (proj2 (collect_root_child sample_Percentage sample_TrimSpace sample_tree
                  [] 0 100 false H)).
Defined.

Lemma stack_rows_pairs_witness :
  (length [T "stray line"] <= 1)%nat
  /\ stack_rows sample_TrimSpace 42 (T "running")
                (frame_lines sample_frames ++ [T "stray line"]) []
     = [] ++ imap (frame_row sample_TrimSpace 42 (T "running") (length sample_frames))
                  sample_frames.
Proof.
  assert (H : (length [T "stray line"] <= 1)%nat) by (simpl; lia).
  split; [exact H|].
  apply (stack_rows_pairs sample_TrimSpace 42 (T "running") sample_frames
           [T "stray line"] [] H).
Defined.

Lemma tikv_rows_and_warnings_witness :
  Permutation
    (sample_arrival (map (worker sample_fetch) (List.filter has_status sample_nodes)))
    (map (worker sample_fetch) (List.filter has_status sample_nodes))
  /\ exists finalRows warnings,
       tikvCpuProfileGraph sample_fetch sample_arrival (inl sample_nodes)
         = (finalRows, None, warnings)
       /\ finalRows
          = flat_map res_rows
              (List.filter succeeded
                 (sample_arrival
                    (map (worker sample_fetch) (List.filter has_status sample_nodes))))
       /\ Permutation finalRows
            (flat_map res_rows
               (map (worker sample_fetch) (List.filter has_status sample_nodes)))
       /\ warnings
          = map (fun row => Some (no_status_address (fst (fst row)) (snd (fst row))))
                (List.filter (fun row => negb (has_status row)) sample_nodes)
            ++ repeat None
                 (length (List.filter (fun r => negb (succeeded r))
                            (map (worker sample_fetch)
                                 (List.filter has_status sample_nodes)))).
Proof.
  assert (H : Permutation
                (sample_arrival
                   (map (worker sample_fetch) (List.filter has_status sample_nodes)))
                (map (worker sample_fetch) (List.filter has_status sample_nodes))).
  { unfold sample_arrival. symmetry. apply Permutation_rev. }
  split; [exact H|].
  apply (tikv_rows_and_warnings sample_fetch sample_arrival sample_nodes H).
Defined.

Example tikv_sample :
  tikvCpuProfileGraph sample_fetch sample_arrival (inl sample_nodes)
  = ([ [StringDatum (T "tikv-0"); StringDatum (T "10.0.0.1:20160");
        StringDatum (T "root"); IntDatum 0];
       [StringDatum (T "tikv-0"); StringDatum (T "10.0.0.1:20160");
        StringDatum (T "main"); IntDatum 1] ],
     None,
     [ Some (no_status_address (T "tikv-1") (T "10.0.0.2:20160")); None ]).
Proof. vm_compute. reflexivity. Qed.

Lemma tikv_rows_origin_witness :
  (forall r,
     In r (sample_arrival (map (worker sample_fetch)
                               (List.filter has_status sample_nodes))) ->
     In r (map (worker sample_fetch) (List.filter has_status sample_nodes)))
  /\ In [StringDatum (T "tikv-0"); StringDatum (T "10.0.0.1:20160");
         StringDatum (T "main"); IntDatum 1]
        (fst (fst (tikvCpuProfileGraph sample_fetch sample_arrival (inl sample_nodes))))
  /\ exists name address statusAddr payload r,
       In (name, address, statusAddr) sample_nodes
       /\ statusAddr <> []
       /\ sample_fetch (profile_url statusAddr) = inl payload
       /\ In r payload
       /\ [StringDatum (T "tikv-0"); StringDatum (T "10.0.0.1:20160");
           StringDatum (T "main"); IntDatum 1]
          = [StringDatum name; StringDatum address] ++ r.
Proof.
  assert (H1 : forall r,
             In r (sample_arrival (map (worker sample_fetch)
                                       (List.filter has_status sample_nodes))) ->
             In r (map (worker sample_fetch) (List.filter has_status sample_nodes))).
  { intros r Hr. unfold sample_arrival in Hr. apply in_rev in Hr. exact Hr. }
  assert (H2 : In [StringDatum (T "tikv-0"); StringDatum (T "10.0.0.1:20160");
                   StringDatum (T "main"); IntDatum 1]
                  (fst (fst (tikvCpuProfileGraph sample_fetch sample_arrival
                                                 (inl sample_nodes))))).
  { vm_compute. right. left. reflexivity. }
  split; [exact H1|]. split; [exact H2|].
  apply (tikv_rows_origin sample_fetch sample_arrival sample_nodes _ H1 H2).
Defined.

Lemma tikv_asks_only_nodes_with_status_witness :
  (forall row, In row [ (T "tikv-1", T "10.0.0.2:20160", []) ] ->
     has_status row = true ->
     sample_fetch (profile_url (snd row)) = dead_fetch (profile_url (snd row)))
  /\ tikvCpuProfileGraph sample_fetch sample_arrival
       (inl [ (T "tikv-1", T "10.0.0.2:20160", []) ])
     = tikvCpuProfileGraph dead_fetch sample_arrival
         (inl [ (T "tikv-1", T "10.0.0.2:20160", []) ]).
Proof.
  assert (H : forall row, In row [ (T "tikv-1", T "10.0.0.2:20160", []) ] ->
                has_status row = true ->
                sample_fetch (profile_url (snd row))
                = dead_fetch (profile_url (snd row))).
  { intros row [<-|[]] Hs. discriminate Hs. }
  split; [exact H|].
  apply (tikv_asks_only_nodes_with_status sample_fetch dead_fetch sample_arrival _ H).
Defined.

End ProfileFacts.
